(** * SfdxConfigAggregator: resolution of config properties over
      environment variables, the local project config and the global config.

    A shallow embedding of [src/lib/config/sfdxConfigAggregator.ts].
    JavaScript objects used as dictionaries are finite maps with string keys,
    [undefined]/[null] results are [None], a [throw] is the [Throw] outcome of
    a small state-and-exception monad over the aggregator's fields.

    Strings are sequences of code units, read as ASCII. The keys of the
    schema are ordinary property names, as the program's own list of config
    properties holds them. [getPath] takes any string: its read of
    [this.envVars[key]] sees the members of [Object.prototype] behind the
    own entries, and the path string it hands to [_.get] is split the way
    lodash 4.17 splits it. *)

From Stdlib Require Import Ascii String NArith.
From stdpp Require Import base option list gmap strings sorting fin_maps.

Local Open Scope string_scope.
Local Open Scope list_scope.

(** ** Backtracking regular expressions

    The part of JavaScript's regular expressions that lodash's word splitter
    uses: ordered alternation, greedy repetition and lookahead. *)
Module Regex.

Inductive regex : Type :=
| Empty                       (* matches the empty string *)
| Class (p : ascii → bool)    (* one code unit of a class *)
| Cat (r1 r2 : regex)         (* r1 r2 *)
| Or (r1 r2 : regex)          (* r1|r2, r1 tried first *)
| Many (r : regex)            (* r*, greedy *)
| Ahead (r : regex)           (* (?=r) *)
| NotAhead (r : regex)        (* (?!r) *)
| AtEnd.                      (* $ *)

Definition Some1 (r : regex) : regex := Cat r (Many r).   (* r+ *)
Definition Opt (r : regex) : regex := Or r Empty.         (* r? *)

Fixpoint Lit (l : list ascii) : regex :=
  match l with
  | [] => Empty
  | c :: l' => Cat (Class (λ d, bool_decide (d = c))) (Lit l')
  end.
Definition Str (s : string) : regex := Lit (list_ascii_of_string s).

(** [run r s k] matches [r] at the start of [s] and hands the rest to the
    continuation [k]; when [k] refuses, the match backtracks. *)
Fixpoint run (X : Type) (r : regex) (s : list ascii)
    (k : list ascii → option X) {struct r} : option X :=
  match r with
  | Empty => k s
  | Class p =>
      match s with
      | c :: s' => if p c then k s' else None
      | [] => None
      end
  | Cat r1 r2 => run X r1 s (λ s1, run X r2 s1 k)
  | Or r1 r2 =>
      match run X r1 s k with
      | Some x => Some x
      | None => run X r2 s k
      end
  | Many r1 =>
      (fix iter (fuel : nat) (s : list ascii) {struct fuel} : option X :=
         match fuel with
         | O => k s
         | S fuel' =>
             match run X r1 s
                     (λ s1, if decide (length s1 < length s)
                            then iter fuel' s1 else None) with
             | Some x => Some x
             | None => k s
             end
         end) (length s) s
  | Ahead r1 =>
      match run unit r1 s (λ _, Some ()) with
      | Some _ => k s
      | None => None
      end
  | NotAhead r1 =>
      match run unit r1 s (λ _, Some ()) with
      | Some _ => None
      | None => k s
      end
  | AtEnd =>
      match s with
      | [] => k s
      | _ :: _ => None
      end
  end.

(** One match attempt at the start of [s]: the matched prefix and the rest. *)
Definition exec (r : regex) (s : list ascii) : option (list ascii * list ascii) :=
  match run (list ascii) r s Some with
  | Some rest => Some (take (length s - length rest) s, rest)
  | None => None
  end.

(** [RegExp.prototype.test]: a match at some position. *)
Fixpoint test (r : regex) (s : list ascii) {struct s} : bool :=
  match exec r s with
  | Some _ => true
  | None =>
      match s with
      | [] => false
      | _ :: s' => test r s'
      end
  end.

(** [String.prototype.match] with the [g] flag: every match from left to
    right; after an empty match or a failure the scan moves on one unit. *)
Fixpoint matchAll_from (fuel : nat) (r : regex) (s : list ascii) : list (list ascii) :=
  match fuel with
  | O => []
  | S fuel' =>
      let skip := match s with
                  | [] => []
                  | _ :: s' => matchAll_from fuel' r s'
                  end in
      match exec r s with
      | Some ([], _) => [] :: skip
      | Some (m, rest) => m :: matchAll_from fuel' r rest
      | None => skip
      end
  end.
Definition matchAll (r : regex) (s : list ascii) : list (list ascii) :=
  matchAll_from (S (length s)) r s.

End Regex.

(** ** The lodash functions the aggregator calls *)
Module Lodash.
Import Regex.

Definition code (c : ascii) : N := N_of_ascii c.
Definition between (lo hi : N) (c : ascii) : bool :=
  (lo <=? code c)%N && (code c <=? hi)%N.

Definition isLower (c : ascii) : bool := between 97 122 c.      (* [a-z] *)
Definition isUpper (c : ascii) : bool := between 65 90 c.       (* [A-Z] *)
Definition isDigit (c : ascii) : bool := between 48 57 c.       (* \d *)
Definition isAlpha (c : ascii) : bool := isLower c || isUpper c.
(* \x00-\x2f \x3a-\x40 \x5b-\x60 \x7b-\x7f *)
Definition isBreak (c : ascii) : bool :=
  between 0 47 c || between 58 64 c || between 91 96 c || between 123 127 c.
(* \w *)
Definition isWordChar (c : ascii) : bool :=
  isAlpha c || isDigit c || bool_decide (c = "_"%char).
Definition isApos (c : ascii) : bool := bool_decide (c = "'"%char).

Definition rsLower : regex := Class isLower.
Definition rsUpper : regex := Class isUpper.
Definition rsBreak : regex := Class isBreak.
Definition rsDigit : regex := Class isDigit.
Definition rsDigits : regex := Some1 rsDigit.
(* On ASCII the class rsMisc is empty, so rsMiscLower and rsMiscUpper are
   rsLower and rsUpper. *)
Definition rsMiscLower : regex := rsLower.
Definition rsMiscUpper : regex := rsUpper.
Definition rsOptContrLower : regex :=
  Opt (Cat (Class isApos)
         (Or (Str "d") (Or (Str "ll") (Or (Str "m") (Or (Str "re")
         (Or (Str "s") (Or (Str "t") (Str "ve")))))))).
Definition rsOptContrUpper : regex :=
  Opt (Cat (Class isApos)
         (Or (Str "D") (Or (Str "LL") (Or (Str "M") (Or (Str "RE")
         (Or (Str "S") (Or (Str "T") (Str "VE")))))))).
(* \b where the unit before is a word character, as it is after an ordinal
   suffix: the end of the string or a unit that is not a word character. *)
Definition wordEnd : regex := Or AtEnd (Class (λ c, negb (isWordChar c))).
Definition is123 (c : ascii) : bool := between 49 51 c.
(* \d*(?:1st|2nd|3rd|(?![123])\dth)(?=\b|[A-Z_]) *)
Definition rsOrdLower : regex :=
  Cat (Many rsDigit)
    (Cat (Or (Str "1st") (Or (Str "2nd") (Or (Str "3rd")
            (Cat (NotAhead (Class is123)) (Cat rsDigit (Str "th"))))))
       (Ahead (Or wordEnd
                 (Class (λ c, isUpper c || bool_decide (c = "_"%char)))))).
(* \d*(?:1ST|2ND|3RD|(?![123])\dTH)(?=\b|[a-z_]) *)
Definition rsOrdUpper : regex :=
  Cat (Many rsDigit)
    (Cat (Or (Str "1ST") (Or (Str "2ND") (Or (Str "3RD")
            (Cat (NotAhead (Class is123)) (Cat rsDigit (Str "TH"))))))
       (Ahead (Or wordEnd
                 (Class (λ c, isLower c || bool_decide (c = "_"%char)))))).

(* /[^\x00-\x2f\x3a-\x40\x5b-\x60\x7b-\x7f]+/g *)
Definition reAsciiWord : regex := Some1 (Class (λ c, negb (isBreak c))).

(* /[a-z][A-Z]|[A-Z]{2}[a-z]|[0-9][a-zA-Z]|[a-zA-Z][0-9]|[^a-zA-Z0-9 ]/ *)
Definition reHasUnicodeWord : regex :=
  Or (Cat rsLower rsUpper)
 (Or (Cat rsUpper (Cat rsUpper rsLower))
 (Or (Cat rsDigit (Class isAlpha))
 (Or (Cat (Class isAlpha) rsDigit)
     (Class (λ c, negb (isAlpha c || isDigit c || bool_decide (c = " "%char))))))).

Definition reUnicodeWord : regex :=
  Or (Cat (Opt rsUpper) (Cat (Some1 rsLower) (Cat rsOptContrLower
        (Ahead (Or rsBreak (Or rsUpper AtEnd))))))
 (Or (Cat (Some1 rsMiscUpper) (Cat rsOptContrUpper
        (Ahead (Or rsBreak (Or (Cat rsUpper rsMiscLower) AtEnd)))))
 (Or (Cat (Opt rsUpper) (Cat (Some1 rsMiscLower) rsOptContrLower))
 (Or (Cat (Some1 rsUpper) rsOptContrUpper)
 (Or rsOrdUpper
 (Or rsOrdLower
     rsDigits))))).

Definition hasUnicodeWord (s : list ascii) : bool := test reHasUnicodeWord s.
Definition asciiWords (s : list ascii) : list (list ascii) := matchAll reAsciiWord s.
Definition unicodeWords (s : list ascii) : list (list ascii) := matchAll reUnicodeWord s.

(** [_.words(string)] without a pattern. *)
Definition words (s : list ascii) : list (list ascii) :=
  if hasUnicodeWord s then unicodeWords s else asciiWords s.

(** [_.deburr] rewrites Latin-1 Supplement and Latin Extended-A letters and
    drops combining marks; it leaves ASCII as it is. *)
Definition deburr (s : list ascii) : list ascii := s.

Definition lowerChar (c : ascii) : ascii :=
  if isUpper c then ascii_of_N (code c + 32) else c.
Definition upperChar (c : ascii) : ascii :=
  if isLower c then ascii_of_N (code c - 32) else c.
Definition toLowerCase (s : list ascii) : list ascii := lowerChar <$> s.
Definition toUpperCase (s : string) : string :=
  string_of_list_ascii (upperChar <$> list_ascii_of_string s).

(** [createCompounder]: the words of the deburred string without its
    apostrophes, reduced from the left with [callback] and the index. *)
Definition createCompounder
    (callback : list ascii → list ascii → nat → list ascii) (s : string) : string :=
  let ws := words (filter (λ c, ¬ isApos c) (deburr (list_ascii_of_string s))) in
  string_of_list_ascii
    (fold_left (λ result iw, callback result iw.2 iw.1) (imap pair ws) []).

(** [_.snakeCase]. *)
Definition snakeCase : string → string :=
  createCompounder (λ result word index,
    result ++ (match index with O => [] | S _ => ["_"%char] end) ++ toLowerCase word).

End Lodash.

(** ** Property paths of lodash

    [_.get(object, path)] with a string [path] that is not itself a
    property of [object] splits it with [stringToPath]. *)
Module LodashPath.
Import Regex.

Definition isOneOf (l : list ascii) (c : ascii) : bool := bool_decide (c ∈ l).
Definition doubleQuote : ascii := ascii_of_N 34.
Definition singleQuote : ascii := "'"%char.
Definition backslash : ascii := "\"%char.
Definition isLineTerminator (c : ascii) : bool := isOneOf [ascii_of_N 10; ascii_of_N 13] c.

(** The units that path syntax gives a meaning: dot, brackets and quotes. *)
Definition isPathSyntax (c : ascii) : bool :=
  isOneOf ["."%char; "["%char; "]"%char; doubleQuote; singleQuote] c.

(** The alternatives of [rePropName], in the order a match tries them:
    a run without dot and brackets, *)
Definition rePropRun : regex :=
  Some1 (Class (λ c, negb (isOneOf ["."; "["; "]"]%char c))).
(** a number in brackets, *)
Definition reNumber : regex :=
  Cat (Opt (Str "-"))
    (Cat (Some1 (Class Lodash.isDigit))
       (Opt (Cat (Str ".") (Some1 (Class Lodash.isDigit))))).
Definition rePropIndex : regex := Cat (Str "[") (Cat reNumber (Str "]")).
(** a quoted string in brackets (no unit of the body starts with the quote,
    so the shortest body followed by the quote is the longest one), *)
Definition reQuotedBody (q : ascii) : regex :=
  Many (Or (Class (λ c, negb (isOneOf [q; backslash] c)))
          (Cat (Class (isOneOf [backslash])) (Class (λ c, negb (isLineTerminator c))))).
Definition rePropQuoted (q : ascii) : regex :=
  Cat (Str "[") (Cat (Class (isOneOf [q]))
    (Cat (reQuotedBody q) (Cat (Class (isOneOf [q])) (Str "]")))).
(** and the empty name between two separators or before the end. *)
Definition rePropEmpty : regex :=
  Ahead (Cat (Or (Str ".") (Str "[]")) (Or (Str ".") (Or (Str "[]") AtEnd))).

(** [subString.replace(reEscapeChar, '$1')]: a backslash goes, and keeps a
    backslash that follows it. *)
Fixpoint unescape (s : list ascii) : list ascii :=
  match s with
  | [] => []
  | c :: s' =>
      if bool_decide (c = backslash) then
        match s' with
        | d :: s'' => if bool_decide (d = backslash) then backslash :: unescape s'' else unescape s'
        | [] => []
        end
      else c :: unescape s'
  end.

(** A match without its first and last [n] units. *)
Definition inner (n : nat) (m : list ascii) : list ascii :=
  take (length m - 2 * n) (drop n m).

(** One match of [rePropName] at the start of [s]: the name that the
    replacer pushes, the match and what follows it. *)
Definition propName (s : list ascii) : option (list ascii * list ascii * list ascii) :=
  match exec rePropRun s with
  | Some (m, rest) => Some (m, m, rest)
  | None =>
  match exec rePropIndex s with
  | Some (m, rest) => Some (inner 1 m, m, rest)
  | None =>
  match exec (rePropQuoted doubleQuote) s with
  | Some (m, rest) => Some (unescape (inner 2 m), m, rest)
  | None =>
  match exec (rePropQuoted singleQuote) s with
  | Some (m, rest) => Some (unescape (inner 2 m), m, rest)
  | None =>
  match exec rePropEmpty s with
  | Some (m, rest) => Some ([], m, rest)
  | None => None
  end end end end end.

(** [string.replace(rePropName, ...)]: the matches from left to right; the
    search goes on one unit further after an empty match and where nothing
    matches. *)
Fixpoint scanPath (fuel : nat) (s : list ascii) : list (list ascii) :=
  match fuel with
  | O => []
  | S fuel' =>
      let skip := match s with
                  | [] => []
                  | _ :: s' => scanPath fuel' s'
                  end in
      match propName s with
      | Some (key, [], _) => key :: skip
      | Some (key, _ :: _, rest) => key :: scanPath fuel' rest
      | None => skip
      end
  end.

(** [stringToPath(string)]; a leading dot gives an empty first name. *)
Definition stringToPath (s : string) : list string :=
  let l := list_ascii_of_string s in
  (match l with
   | c :: _ => if bool_decide (c = "."%char) then [""] else []
   | [] => []
   end) ++ (string_of_list_ascii <$> scanPath (S (length l)) l).

End LodashPath.

(** ** Values, errors and outcomes *)

(** A config value: [string | boolean]. *)
Inductive ConfigValue : Type :=
| VString (s : string)
| VBool (b : bool).

Global Instance ConfigValue_eq_dec : EqDecision ConfigValue.
Proof. solve_decision. Defined.

(** A JavaScript object used as a dictionary of config values. The order in
    which its keys are enumerated is the map's own. *)
Abbreviation object := (gmap string ConfigValue).

(** Reading a property gives [None] for [undefined]. [_.isNil] and the
    truthiness test of [if] and [&&] on such a reading: *)
Definition isNil {A : Type} (v : option A) : bool :=
  match v with
  | None => true
  | Some _ => false
  end.

Definition truthy (v : option ConfigValue) : bool :=
  match v with
  | None => false
  | Some (VBool b) => b
  | Some (VString "") => false
  | Some (VString _) => true
  end.

(** ** Property reads on plain objects *)
Module JavaScript.

(** The members that every plain object inherits from [Object.prototype]. *)
Definition objectPrototypeMembers : list string :=
  ["constructor"; "__defineGetter__"; "__defineSetter__"; "hasOwnProperty";
   "__lookupGetter__"; "__lookupSetter__"; "isPrototypeOf"; "propertyIsEnumerable";
   "toString"; "valueOf"; "__proto__"; "toLocaleString"].

(** What a property read [obj[key]] finds on a plain object of config
    values: an own property, or else a member of the prototype. *)
Inductive member : Type :=
| Own (v : ConfigValue)
| Inherited (name : string).

Definition getProperty (obj : object) (key : string) : option member :=
  match obj !! key with
  | Some v => Some (Own v)
  | None =>
      if bool_decide (key ∈ objectPrototypeMembers) then Some (Inherited key) else None
  end.

(** The engine's built-in members of strings, booleans and functions are
    outside the sources. They matter only when a path goes on behind a
    member: [deepDefined m path] tells whether following the non-empty
    [path] from [m] ends in a value that is neither [undefined] nor [null]. *)
Class Builtins : Type := { deepDefined : member → list string → bool }.

End JavaScript.

(** A thrown error, with the two fields the aggregator looks at. *)
Record Error : Type := mkError { name : string; message : string }.

Global Instance Error_eq_dec : EqDecision Error.
Proof. solve_decision. Defined.

(** [new SfdxError(message, name)]. *)
Definition SfdxError (msg nm : string) : Error := {| name := nm; message := msg |}.
(** The engine's error for a member access on [undefined]. *)
Definition TypeError (msg : string) : Error := {| name := "TypeError"; message := msg |}.

Inductive outcome (A : Type) : Type :=
| Ok (a : A)
| Throw (e : Error).
Arguments Ok {A} a.
Arguments Throw {A} e.

Global Instance outcome_ret : MRet outcome := λ A a, Ok a.
Global Instance outcome_bind : MBind outcome := λ A B f m,
  match m with
  | Ok a => f a
  | Throw e => Throw e
  end.

(** [Array.prototype.map] with a callback that may throw: left to right, the
    first throw ends the call. *)
Fixpoint mapOutcome {A B : Type} (f : A → outcome B) (l : list A) : outcome (list B) :=
  match l with
  | [] => Ok []
  | x :: l' => y ← f x; ys ← mapOutcome f l'; Ok (y :: ys)
  end.

Inductive LOCATIONS : Type :=
| GLOBAL        (* 'Global' *)
| LOCAL         (* 'Local' *)
| ENVIRONMENT.  (* 'Environment' *)

Global Instance LOCATIONS_eq_dec : EqDecision LOCATIONS.
Proof. solve_decision. Defined.

(** ** The collaborators: config schema, settings store, process environment *)

Module ConfigPropertyMeta.
(** Modelled from the spec: a property descriptor of the schema
    ([ConfigPropertyMeta] of sfdxConfig.ts), of which the aggregator reads
    the [key] field only. *)
Record t : Type := mk { key : string }.
End ConfigPropertyMeta.

Module SfdxConfig.
(** Modelled from the spec: the settings store [SfdxConfig] of
    sfdxConfig.ts. A store knows whether it is the global one, its path on
    disk and the contents mapping that [read()] fills; [get(key)] reads the
    contents, [toObject()] returns the full flat mapping and [getPath()] the
    path. *)
Record t : Type := mk { isGlobal : bool; path : string; contents : object }.

Definition get (c : t) (key : string) : option ConfigValue := contents c !! key.
Definition toObject (c : t) : object := contents c.
Definition getPath (c : t) : string := path c.
End SfdxConfig.

(** Modelled from the spec: what one load sees outside the aggregator. The
    process environment, the schema's list of allowed properties, the result
    of creating the local or the global store and the mapping a store's
    [read()] loads; creating and reading a store can throw. *)
Record World : Type := mkWorld {
  (* process.env[name] *)
  process_env : string → option string;
  (* SfdxConfig.getAllowedProperties() *)
  schema : list ConfigPropertyMeta.t;
  (* await SfdxConfig.create(SfdxConfig.getDefaultOptions(isGlobal)) *)
  create_config : bool → outcome SfdxConfig.t;
  (* the contents after await store.read() *)
  read_config : SfdxConfig.t → outcome object;
}.

Module LodashObject.
(** [_.merge(object, source)]: every own property of [source] is assigned
    onto [object]. A value that is a string or a boolean is assigned as it
    is; lodash recurses only into values that are arrays or plain objects. *)
Definition merge (obj source : object) : object :=
  map_fold (λ key srcValue result, <[key := srcValue]> result) obj source.

(** [_.keys(object)]. *)
Definition keys (obj : object) : list string := (map_to_list obj).*1.

(** What [_.get(store, path)] finds behind a store. *)
Inductive gotten : Type :=
| Contents (obj : object)
| Member (m : JavaScript.member)
| Deeper (m : JavaScript.member) (path : list string).

(** [_.get(store, `contents[${key}]`)]: [undefined] when there is no store.
    The string has a bracket pair and names no member of the store, so it
    is split as a path, and the names are followed from the store: its
    [contents] (the only member a path of this form starts with), a member
    of that plain object, then members of members. The result is
    [undefined] as soon as a name finds nothing, and for an empty path. *)
Definition get_contents `{JavaScript.Builtins}
    (store : option SfdxConfig.t) (key : string) : option gotten :=
  c ← store;
  match LodashPath.stringToPath ("contents[" +:+ key +:+ "]") with
  | first :: path =>
      if bool_decide (first = "contents") then
        match path with
        | [] => Some (Contents (SfdxConfig.contents c))
        | name :: path' =>
            m ← JavaScript.getProperty (SfdxConfig.contents c) name;
            match path' with
            | [] => Some (Member m)
            | _ :: _ =>
                if JavaScript.deepDefined m path' then Some (Deeper m path') else None
            end
        end
      else None
  | [] => None
  end.

(** [_.sortBy(collection, iteratee)]: a stable sort in ascending order of
    the string that [iteratee] gives, strings compared unit by unit. *)
Definition ascendingBy {A : Type} (iteratee : A → string) : relation A :=
  λ x y, String.le (iteratee x) (iteratee y).
Definition sortBy {A : Type} (collection : list A) (iteratee : A → string) : list A :=
  merge_sort (ascendingBy iteratee) collection.
End LodashObject.

(** const propertyToEnvName = (property) => `SFDX_${_.snakeCase(property).toUpperCase()}` *)
Definition propertyToEnvName (property : string) : string :=
  "SFDX_" +:+ Lodash.toUpperCase (Lodash.snakeCase property).

Module ConfigInfo.
Record t : Type := mk {
  key : string;
  location : option LOCATIONS;
  value : option ConfigValue;
  path : option string;
}.

Definition isLocal (i : t) : bool := bool_decide (location i = Some LOCAL).
Definition isGlobal (i : t) : bool := bool_decide (location i = Some GLOBAL).
Definition isEnvVar (i : t) : bool := bool_decide (location i = Some ENVIRONMENT).
End ConfigInfo.

(** ** The aggregator *)
Module SfdxConfigAggregator.

(** The private fields; each is [undefined] until [loadProperties] sets it. *)
Record t : Type := mk {
  allowedProperties : option (list ConfigPropertyMeta.t);
  localConfig : option SfdxConfig.t;
  globalConfig : option SfdxConfig.t;
  envVars : option object;
  config : option object;
}.

(** [new SfdxConfigAggregator()]. *)
Definition new : t :=
  {| allowedProperties := None; localConfig := None; globalConfig := None;
     envVars := None; config := None |}.

(** *** Methods that change the fields: state and exceptions *)

Definition M (A : Type) : Type := t → outcome A * t.

Global Instance M_ret : MRet M := λ A x this, (Ok x, this).
Global Instance M_bind : MBind M := λ A B f m this,
  match m this with
  | (Ok x, this') => f x this'
  | (Throw e, this') => (Throw e, this')
  end.

Definition throw {A : Type} (e : Error) : M A := λ this, (Throw e, this).
(** [await] of a collaborator's promise. *)
Definition await {A : Type} (o : outcome A) : M A := λ this, (o, this).
Definition tryCatch {A : Type} (body : M A) (handler : Error → M A) : M A := λ this,
  match body this with
  | (Ok x, this') => (Ok x, this')
  | (Throw e, this') => handler e this'
  end.
Definition read {A : Type} (field : t → A) : M A := λ this, (Ok (field this), this).

Definition setConfig (c : object) : M () := λ this,
  (Ok (), {| allowedProperties := allowedProperties this; localConfig := localConfig this;
             globalConfig := globalConfig this; envVars := envVars this;
             config := Some c |}).
Definition setLocalConfig (c : SfdxConfig.t) : M () := λ this,
  (Ok (), {| allowedProperties := allowedProperties this; localConfig := Some c;
             globalConfig := globalConfig this; envVars := envVars this;
             config := config this |}).
Definition setGlobalConfig (c : SfdxConfig.t) : M () := λ this,
  (Ok (), {| allowedProperties := allowedProperties this; localConfig := localConfig this;
             globalConfig := Some c; envVars := envVars this;
             config := config this |}).
Definition setAllowedProperties (properties : list ConfigPropertyMeta.t) : M () := λ this,
  (Ok (), {| allowedProperties := Some properties; localConfig := localConfig this;
             globalConfig := globalConfig this; envVars := envVars this;
             config := config this |}).
Definition setEnvVars (e : object) : M () := λ this,
  (Ok (), {| allowedProperties := allowedProperties this; localConfig := localConfig this;
             globalConfig := globalConfig this; envVars := Some e;
             config := config this |}).

(** A member access on a field that may still be [undefined]. *)
Definition defined {A : Type} (field : t → option A) (what : string) : M A := λ this,
  match field this with
  | Some x => (Ok x, this)
  | None => (Throw (TypeError what), this)
  end.

(** [await this.globalConfig.read()], [await this.localConfig.read()]: the
    store the field refers to gets its contents from disk. *)
Definition readStore (w : World) (c : SfdxConfig.t) : outcome SfdxConfig.t :=
  cts ← read_config w c;
  Ok {| SfdxConfig.isGlobal := SfdxConfig.isGlobal c;
        SfdxConfig.path := SfdxConfig.path c;
        SfdxConfig.contents := cts |}.

(** The reducer of [setEnvVars] in [loadProperties]. *)
Definition envReducer (w : World) (obj : object) (property : ConfigPropertyMeta.t) : object :=
  let val := process_env w (propertyToEnvName (ConfigPropertyMeta.key property)) in
  match val with
  | Some s => <[ConfigPropertyMeta.key property := VString s]> obj
  | None => obj
  end.

Definition loadProperties (w : World) : M () :=
  tryCatch
    (c ← await (create_config w false); setLocalConfig c)
    (λ err, if bool_decide (name err ≠ "InvalidProjectWorkspace")
            then throw err else mret ());;
  g ← await (create_config w true);
  setGlobalConfig g;;
  setAllowedProperties (schema w);;
  allowed ← defined allowedProperties "reduce";
  setEnvVars (foldl (envReducer w) ∅ allowed);;
  g ← defined globalConfig "read";
  g' ← await (readStore w g);
  setGlobalConfig g';;
  let configs := [Some (SfdxConfig.toObject g')] in
  l ← read localConfig;
  configs ← match l with
            | Some c =>
                c' ← await (readStore w c);
                setLocalConfig c';;
                mret (configs ++ [Some (SfdxConfig.toObject c')])
            | None => mret configs
            end;
  e ← read envVars;
  let configs := configs ++ [e] in
  setConfig (foldl (λ result configElement, LodashObject.merge result configElement)
               ∅ (omap id configs)).

(** [SfdxConfigAggregator.create()]. *)
Definition create (w : World) : outcome t :=
  let configAggregator := new in
  match loadProperties w configAggregator with
  | (Ok _, configAggregator') => Ok configAggregator'
  | (Throw e, _) => Throw e
  end.

(** [reload()]: the same instance, loaded again. *)
Definition reload (w : World) : M () := loadProperties w.

(** *** Queries *)

Definition getLocalConfig (this : t) : option SfdxConfig.t := localConfig this.
Definition getGlobalConfig (this : t) : option SfdxConfig.t := globalConfig this.
Definition getConfig (this : t) : option object := config this.
(** [new Map(_.entries(this.envVars))]; [_.entries(undefined)] is empty. *)
Definition getEnvVars (this : t) : object := default ∅ (envVars this).

Definition getPropertyValue (this : t) (key : string) : outcome (option ConfigValue) :=
  match allowedProperties this with
  | None => Throw (TypeError "some")
  | Some allowed =>
      if existsb (λ element, bool_decide (key = ConfigPropertyMeta.key element)) allowed
      then match getConfig this with
           | None => Throw (TypeError key)
           | Some c => Ok (c !! key)
           end
      else Throw (SfdxError ("Unknown config key: " +:+ key) "UnknownConfigKey")
  end.

Definition getLocation (this : t) (key : string) : option LOCATIONS :=
  if negb (isNil (getEnvVars this !! key)) then Some ENVIRONMENT
  else if match getLocalConfig this with
          | Some c => truthy (SfdxConfig.get c key)
          | None => false
          end then Some LOCAL
  else if match getGlobalConfig this with
          | Some c => truthy (SfdxConfig.get c key)
          | None => false
          end then Some GLOBAL
  else None.

(** [this.envVars[key]] is a property read on the plain object that the
    load built, not a lookup in the Map of [getEnvVars()]. *)
Definition getPath `{JavaScript.Builtins} (this : t) (key : string) :
    outcome (option string) :=
  match envVars this with
  | None => Throw (TypeError key)
  | Some e =>
      if negb (isNil (JavaScript.getProperty e key)) then
        Ok (Some ("$" +:+ propertyToEnvName key))
      else if negb (isNil (LodashObject.get_contents (getLocalConfig this) key)) then
        match getLocalConfig this with
        | Some c => Ok (Some (SfdxConfig.getPath c))
        | None => Throw (TypeError "getPath")
        end
      else if negb (isNil (LodashObject.get_contents (getGlobalConfig this) key)) then
        match getGlobalConfig this with
        | Some c => Ok (Some (SfdxConfig.getPath c))
        | None => Throw (TypeError "getPath")
        end
      else Ok None
  end.

Definition getInfo `{JavaScript.Builtins} (this : t) (key : string) : outcome ConfigInfo.t :=
  let location := getLocation this key in
  value ← getPropertyValue this key;
  path ← getPath this key;
  Ok {| ConfigInfo.key := key; ConfigInfo.location := location;
        ConfigInfo.value := value; ConfigInfo.path := path |}.

(** [_.keys] of an [undefined] config is the empty list. *)
Definition getConfigInfo `{JavaScript.Builtins} (this : t) : outcome (list ConfigInfo.t) :=
  info ← mapOutcome (λ key, getInfo this key)
           (LodashObject.keys (default ∅ (getConfig this)));
  Ok (LodashObject.sortBy info ConfigInfo.key).

End SfdxConfigAggregator.

(** ** Layers and what a load establishes *)

Import SfdxConfigAggregator.

(** The three layers the aggregator keeps after a load. *)
Definition environmentLayer (this : t) : object := getEnvVars this.
Definition localLayer (this : t) : object :=
  from_option SfdxConfig.contents ∅ (getLocalConfig this).
Definition globalLayer (this : t) : object :=
  from_option SfdxConfig.contents ∅ (getGlobalConfig this).

(** The keys of the schema. *)
Definition allowedKeys (w : World) : list string := ConfigPropertyMeta.key <$> schema w.

(** The precedence in the spec's words: the Environment value if there is
    one, else Local's, else Global's. *)
Definition overlay (this : t) (key : string) : option ConfigValue :=
  match environmentLayer this !! key with
  | Some v => Some v
  | None =>
      match localLayer this !! key with
      | Some v => Some v
      | None => globalLayer this !! key
      end
  end.

(** The origin in the spec's words, by presence in each layer: the path of
    a store whose contents hold the key. *)
Definition storePath (store : option SfdxConfig.t) (key : string) : option string :=
  c ← store; _ ← SfdxConfig.contents c !! key; Some (SfdxConfig.getPath c).

Definition pathByPresence (this : t) (key : string) : option string :=
  match environmentLayer this !! key with
  | Some _ => Some ("$" +:+ propertyToEnvName key)
  | None =>
      match storePath (getLocalConfig this) key with
      | Some p => Some p
      | None => storePath (getGlobalConfig this) key
      end
  end.

(** The layer a location names. *)
Definition layer (this : t) (location : LOCATIONS) : object :=
  match location with
  | ENVIRONMENT => environmentLayer this
  | LOCAL => localLayer this
  | GLOBAL => globalLayer this
  end.

(** The location by truthiness, as [getLocation] finds it in the files. *)
Definition fileLocation (this : t) (key : string) : option LOCATIONS :=
  if truthy (localLayer this !! key) then Some LOCAL
  else if truthy (globalLayer this !! key) then Some GLOBAL
  else None.

(** A key that is one property name for [_.get] and names no member of
    [Object.prototype]: it has no dot, bracket or quote. *)
Definition plainKey (key : string) : bool :=
  forallb (λ c, negb (LodashPath.isPathSyntax c)) (list_ascii_of_string key)
  && bool_decide (key ∉ JavaScript.objectPrototypeMembers).

(** The path that [getPath] returns, [None] for [null]. *)
Definition resolvedPath `{JavaScript.Builtins} (this : t) (key : string) : option string :=
  match getPath this key with
  | Ok p => p
  | Throw _ => None
  end.

(** The record [getInfo] builds for a key of the schema. *)
Definition infoOf `{JavaScript.Builtins} (this : t) (key : string) : ConfigInfo.t :=
  {| ConfigInfo.key := key; ConfigInfo.location := getLocation this key;
     ConfigInfo.value := overlay this key; ConfigInfo.path := resolvedPath this key |}.

(** What every successful load leaves in the fields. *)
Record Loaded (w : World) (this : t) : Prop := {
  loaded_allowed : allowedProperties this = Some (schema w);
  loaded_global : is_Some (getGlobalConfig this);
  loaded_envVars : envVars this = Some (environmentLayer this);
  loaded_environment : ∀ key,
    environmentLayer this !! key =
      if decide (key ∈ allowedKeys w)
      then VString <$> process_env w (propertyToEnvName key)
      else None;
  loaded_config : ∃ cfg, getConfig this = Some cfg ∧ ∀ key, cfg !! key = overlay this key;
}.

(** ** Concrete worlds *)
Module Examples.

Definition properties : list ConfigPropertyMeta.t :=
  [ConfigPropertyMeta.mk "defaultusername"; ConfigPropertyMeta.mk "apiVersion";
   ConfigPropertyMeta.mk "logLevel"; ConfigPropertyMeta.mk "restDeploy";
   ConfigPropertyMeta.mk "instanceUrl"].

(** An engine for the examples. No example follows a path behind a member
    of the contents, so none of them asks it anything. *)
Definition builtins : JavaScript.Builtins :=
  {| JavaScript.deepDefined := λ _ _, false |}.

Definition globalPath : string := "/home/dev/.sfdx/sfdx-config.json".
Definition localPath : string := "/work/app/.sfdx/sfdx-config.json".
Definition globalStore (cts : object) : SfdxConfig.t := SfdxConfig.mk true globalPath cts.
Definition localStore (cts : object) : SfdxConfig.t := SfdxConfig.mk false localPath cts.

(** A process environment with the given variables. *)
Definition env (vars : gmap string string) : string → option string := λ nm, vars !! nm.

(** A project with both files; every store is created empty and filled by
    its read. *)
Definition project (vars : gmap string string) (locals globals : object) : World :=
  {| process_env := env vars;
     schema := properties;
     create_config := λ isGlobal,
       Ok (if isGlobal then globalStore ∅ else localStore ∅);
     read_config := λ c, Ok (if SfdxConfig.isGlobal c then globals else locals) |}.

Definition InvalidProjectWorkspace : Error :=
  SfdxError "This directory does not contain a valid Salesforce DX project"
    "InvalidProjectWorkspace".

(** Outside any project: creating the local store throws. *)
Definition outsideProject (vars : gmap string string) (globals : object) : World :=
  {| process_env := env vars;
     schema := properties;
     create_config := λ isGlobal,
       if isGlobal then Ok (globalStore ∅) else Throw InvalidProjectWorkspace;
     read_config := λ c, Ok (if SfdxConfig.isGlobal c then globals else ∅) |}.

(** All three layers hold defaultusername; Local has restDeploy false where
    Global has it true. *)
Definition threeLayers : World :=
  project {[ "SFDX_DEFAULTUSERNAME" := "carol"; "SFDX_LOG_LEVEL" := "DEBUG" ]}
    {[ "defaultusername" := VString "alice"; "restDeploy" := VBool false ]}
    {[ "defaultusername" := VString "bob"; "restDeploy" := VBool true;
       "apiVersion" := VString "41.0"; "logLevel" := VString "INFO" ]}.

Definition threeLayersLoaded : t :=
  {| allowedProperties := Some properties;
     localConfig := Some (localStore
       {[ "defaultusername" := VString "alice"; "restDeploy" := VBool false ]});
     globalConfig := Some (globalStore
       {[ "defaultusername" := VString "bob"; "restDeploy" := VBool true;
          "apiVersion" := VString "41.0"; "logLevel" := VString "INFO" ]});
     envVars := Some {[ "defaultusername" := VString "carol";
                        "logLevel" := VString "DEBUG" ]};
     config := Some {[ "defaultusername" := VString "carol";
                       "restDeploy" := VBool false;
                       "apiVersion" := VString "41.0";
                       "logLevel" := VString "DEBUG" ]} |}.

(** Local sets restDeploy to false and nothing else holds the key. *)
Definition falsyLocal : World :=
  project ∅ {[ "restDeploy" := VBool false ]} {[ "defaultusername" := VString "bob" ]}.

Definition falsyLocalLoaded : t :=
  {| allowedProperties := Some properties;
     localConfig := Some (localStore {[ "restDeploy" := VBool false ]});
     globalConfig := Some (globalStore {[ "defaultusername" := VString "bob" ]});
     envVars := Some ∅;
     config := Some {[ "restDeploy" := VBool false;
                       "defaultusername" := VString "bob" ]} |}.

(** The local file holds a key that the schema does not have. *)
Definition strayKey : World :=
  project ∅ {[ "colour" := VBool false ]} {[ "defaultusername" := VString "bob" ]}.

Definition strayKeyLoaded : t :=
  {| allowedProperties := Some properties;
     localConfig := Some (localStore {[ "colour" := VBool false ]});
     globalConfig := Some (globalStore {[ "defaultusername" := VString "bob" ]});
     envVars := Some ∅;
     config := Some {[ "colour" := VBool false;
                       "defaultusername" := VString "bob" ]} |}.

(** The local file holds a key with a dot in its name. *)
Definition dottedKey : World :=
  project ∅ {[ "org.alias" := VString "dev" ]} {[ "defaultusername" := VString "bob" ]}.

Definition dottedKeyLoaded : t :=
  {| allowedProperties := Some properties;
     localConfig := Some (localStore {[ "org.alias" := VString "dev" ]});
     globalConfig := Some (globalStore {[ "defaultusername" := VString "bob" ]});
     envVars := Some ∅;
     config := Some {[ "org.alias" := VString "dev";
                       "defaultusername" := VString "bob" ]} |}.

(** Outside a project, with the log level in the environment. *)
Definition noProject : World :=
  outsideProject {[ "SFDX_LOG_LEVEL" := "DEBUG" ]} {[ "logLevel" := VString "INFO" ]}.

Definition noProjectLoaded : t :=
  {| allowedProperties := Some properties;
     localConfig := None;
     globalConfig := Some (globalStore {[ "logLevel" := VString "INFO" ]});
     envVars := Some {[ "logLevel" := VString "DEBUG" ]};
     config := Some {[ "logLevel" := VString "DEBUG" ]} |}.

(** A first load with Global only, then a reload in which the user name is
    in the environment and the global file cannot be read. *)
Definition before : World :=
  project ∅ ∅ {[ "defaultusername" := VString "bob" ]}.

Definition beforeLoaded : t :=
  {| allowedProperties := Some properties;
     localConfig := Some (localStore ∅);
     globalConfig := Some (globalStore {[ "defaultusername" := VString "bob" ]});
     envVars := Some ∅;
     config := Some {[ "defaultusername" := VString "bob" ]} |}.

Definition EACCES : Error :=
  {| name := "EACCES"; message := "permission denied, open sfdx-config.json" |}.

Definition unreadableGlobal : World :=
  {| process_env := env {[ "SFDX_DEFAULTUSERNAME" := "carol" ]};
     schema := properties;
     create_config := λ isGlobal,
       Ok (if isGlobal then globalStore ∅ else localStore ∅);
     read_config := λ c, if SfdxConfig.isGlobal c then Throw EACCES else Ok ∅ |}.

Definition afterFailedReload : t :=
  {| allowedProperties := Some properties;
     localConfig := Some (localStore ∅);
     globalConfig := Some (globalStore ∅);
     envVars := Some {[ "defaultusername" := VString "carol" ]};
     config := Some {[ "defaultusername" := VString "bob" ]} |}.

End Examples.

(** ** Definitions for the properties beyond the claims *)

(** The origin that [getPath] shows for a location. *)
Definition origin (this : t) (location : LOCATIONS) (key : string) : option string :=
  match location with
  | ENVIRONMENT => Some ("$" +:+ propertyToEnvName key)
  | LOCAL => SfdxConfig.getPath <$> getLocalConfig this
  | GLOBAL => SfdxConfig.getPath <$> getGlobalConfig this
  end.

(** Creating the local store does not abort the load: it succeeds or throws
    InvalidProjectWorkspace. *)
Definition localCreationPasses (w : World) : Prop :=
  match create_config w false with
  | Ok _ => True
  | Throw e => name e = "InvalidProjectWorkspace"
  end.

(** The local store whose [read()] a load awaits, if any: the one just
    created, or the one the field still holds when none was created. *)
Definition localStoreToRead (w : World) (this : t) : option SfdxConfig.t :=
  match create_config w false with
  | Ok c => Some c
  | Throw _ => getLocalConfig this
  end.

(** The code units of an environment-variable name after its prefix. *)
Definition isEnvNameChar (c : ascii) : bool :=
  Lodash.isUpper c || Lodash.isDigit c || bool_decide (c = "_"%char).

Definition isAscii (c : ascii) : bool := Lodash.between 0 127 c.

(** Every class of [r] outside a lookahead admits only units that satisfy
    [P]: what a match of [r] can consume. *)
Fixpoint consumes (P : ascii → Prop) (r : Regex.regex) : Prop :=
  match r with
  | Regex.Empty | Regex.Ahead _ | Regex.NotAhead _ | Regex.AtEnd => True
  | Regex.Class p => ∀ c, p c = true → P c
  | Regex.Cat r1 r2 | Regex.Or r1 r2 => consumes P r1 ∧ consumes P r2
  | Regex.Many r1 => consumes P r1
  end.

(** The units that [p] admits end before [rest]. *)
Definition stops (p : ascii → bool) (rest : list ascii) : Prop :=
  match rest with
  | [] => True
  | c :: _ => p c = false
  end.

Module Scenarios.
Import Examples.

(** The files of a project in which Local names alice and Global bob. *)
Definition inProject : World :=
  project ∅ {[ "defaultusername" := VString "alice" ]}
    {[ "defaultusername" := VString "bob" ]}.

Definition inProjectLoaded : t :=
  {| allowedProperties := Some properties;
     localConfig := Some (localStore {[ "defaultusername" := VString "alice" ]});
     globalConfig := Some (globalStore {[ "defaultusername" := VString "bob" ]});
     envVars := Some ∅;
     config := Some {[ "defaultusername" := VString "alice" ]} |}.

(** The same files seen from outside the project: creating the local store
    throws, the store created earlier can still read its file. *)
Definition leftProject : World :=
  {| process_env := env ∅;
     schema := properties;
     create_config := λ isGlobal,
       if isGlobal then Ok (globalStore ∅) else Throw InvalidProjectWorkspace;
     read_config := λ c,
       Ok (if SfdxConfig.isGlobal c
           then {[ "defaultusername" := VString "bob" ]}
           else {[ "defaultusername" := VString "alice" ]}) |}.

(** The user name is set to the empty string in the environment. *)
Definition emptyVariable : World :=
  project {[ "SFDX_DEFAULTUSERNAME" := "" ]}
    {[ "defaultusername" := VString "alice" ]}
    {[ "defaultusername" := VString "bob" ]}.

Definition emptyVariableLoaded : t :=
  {| allowedProperties := Some properties;
     localConfig := Some (localStore {[ "defaultusername" := VString "alice" ]});
     globalConfig := Some (globalStore {[ "defaultusername" := VString "bob" ]});
     envVars := Some {[ "defaultusername" := VString "" ]};
     config := Some {[ "defaultusername" := VString "" ]} |}.

(** Neither file can be read. *)
Definition ENOENT : Error :=
  {| name := "ENOENT"; message := "no such file, open sfdx-config.json" |}.

Definition nothingReadable : World :=
  {| process_env := env ∅;
     schema := properties;
     create_config := λ isGlobal,
       Ok (if isGlobal then globalStore ∅ else localStore ∅);
     read_config := λ c, Throw (if SfdxConfig.isGlobal c then EACCES else ENOENT) |}.

End Scenarios.

(** ** Facts about regular expressions and property paths *)

Section regex_facts.
Context (P : ascii → Prop).

(** A successful match consumed a prefix made of units that the classes of
    the expression admit, and the continuation accepted the rest. *)
Lemma run_consumes (r : Regex.regex) :
  consumes P r →
  ∀ (X : Type) (s : list ascii) (k : list ascii → option X) (x : X),
    Regex.run X r s k = Some x →
    ∃ m s', s = m ++ s' ∧ Forall P m ∧ k s' = Some x.
Proof.
  induction r as [|p|r1 IH1 r2 IH2|r1 IH1 r2 IH2|r1 IH1|r1 _|r1 _|];
    intros Hc X s k x; cbn [Regex.run].
  - intros Hk. by exists [], s.
  - destruct s as [|c s']; [done|]. destruct (p c) eqn:Hp; [|done].
    intros Hk. exists [c], s'. repeat split; [|done]. constructor; [by apply Hc|done].
  - destruct Hc as [Hc1 Hc2].
    intros (m1 & s1 & -> & Hm1 & H2)%(IH1 Hc1).
    apply (IH2 Hc2) in H2 as (m2 & s2 & -> & Hm2 & Hk).
    exists (m1 ++ m2), s2. rewrite <- (assoc (++)). by rewrite Forall_app.
  - destruct Hc as [Hc1 Hc2].
    destruct (Regex.run X r1 s k) as [y|] eqn:H1.
    + intros [= ->]. by apply (IH1 Hc1) in H1.
    + by intros H2%(IH2 Hc2).
  - generalize (length s) as fuel. intros fuel. revert s.
    induction fuel as [|fuel IHfuel]; intros s.
    { intros Hk. by exists [], s. }
    match goal with
    | |- context [Regex.run X r1 s ?k'] =>
        destruct (Regex.run X r1 s k') as [y|] eqn:Hrun
    end.
    + intros [= ->].
      apply (IH1 Hc) in Hrun as (m1 & s1 & -> & Hm1 & Hiter).
      destruct (decide _); [|done].
      apply IHfuel in Hiter as (m2 & s2 & -> & Hm2 & Hk).
      exists (m1 ++ m2), s2. rewrite <- (assoc (++)). by rewrite Forall_app.
    + intros Hk. by exists [], s.
  - destruct (Regex.run unit r1 s _); [|done]. intros Hk. by exists [], s.
  - destruct (Regex.run unit r1 s _); [done|]. intros Hk. by exists [], s.
  - destruct s; [|done]. intros Hk. by exists [], [].
Qed.

(** The prefix that [exec] reports is what the match consumed. *)
Lemma exec_consumes (r : Regex.regex) (s m rest : list ascii) :
  consumes P r → Regex.exec r s = Some (m, rest) → s = m ++ rest ∧ Forall P m.
Proof.
  unfold Regex.exec. intros Hc.
  destruct (Regex.run _ r s Some) as [rest'|] eqn:Hrun; [|done].
  intros [= <- <-].
  apply (run_consumes r Hc) in Hrun as (m' & s' & -> & Hm' & [= ->]).
  rewrite length_app, Nat.add_sub, take_app_length. done.
Qed.

(** Every match of a global scan consists of admitted units. *)
Lemma matchAll_consumes (r : Regex.regex) (s : list ascii) :
  consumes P r → Forall (Forall P) (Regex.matchAll r s).
Proof.
  intros Hc. unfold Regex.matchAll. generalize (S (length s)) as fuel.
  intros fuel. revert s. induction fuel as [|fuel IH]; intros s; [constructor|].
  cbn [Regex.matchAll_from].
  assert (Forall (Forall P)
            match s with [] => [] | _ :: s' => Regex.matchAll_from fuel r s' end)
    as Hskip by (destruct s; [constructor|apply IH]).
  destruct (Regex.exec r s) as [[m rest]|] eqn:Hexec; [|done].
  apply (exec_consumes r s m rest Hc) in Hexec as [_ Hm].
  destruct m; constructor; auto.
Qed.
End regex_facts.

Section path_facts.
Import Regex LodashPath.

(** A unit at which a run of the class [p] stops. *)
Lemma run_many_class (X : Type) (p : ascii → bool) (m rest : list ascii)
    (k : list ascii → option X) (x : X) :
  Forall (λ c, p c = true) m → stops p rest → k rest = Some x →
  run X (Many (Class p)) (m ++ rest) k = Some x.
Proof.
  intros Hm Hrest Hk. cbn [run].
  assert (List.length m <= List.length (m ++ rest))%nat as Hfuel by (rewrite length_app; lia).
  revert Hfuel. generalize (length (m ++ rest)) as fuel. intros fuel. revert fuel.
  induction Hm as [|c m Hc Hm IH]; intros fuel Hfuel.
  - destruct fuel as [|fuel]; [done|]. simpl.
    destruct rest as [|c rest]; [done|]. simpl in Hrest. by rewrite Hrest.
  - destruct fuel as [|fuel]; [simpl in Hfuel; lia|].
    change ((c :: m) ++ rest) with (c :: (m ++ rest)). cbn [run]. rewrite Hc.
    rewrite decide_True by (simpl; lia).
    rewrite IH; [done|simpl in Hfuel; lia].
Qed.

Lemma exec_some1_class (p : ascii → bool) (m rest : list ascii) :
  m ≠ [] → Forall (λ c, p c = true) m → stops p rest →
  exec (Some1 (Class p)) (m ++ rest) = Some (m, rest).
Proof.
  intros Hne Hm Hrest. destruct m as [|c m]; [done|].
  apply Forall_cons in Hm as [Hc Hm].
  unfold exec, Some1. change ((c :: m) ++ rest) with (c :: (m ++ rest)).
  change (run (list ascii) (Cat (Class p) (Many (Class p))) (c :: m ++ rest) Some)
    with (if p c then run (list ascii) (Many (Class p)) (m ++ rest) Some else None).
  rewrite Hc, (run_many_class _ p m rest Some rest Hm Hrest eq_refl).
  f_equal. f_equal.
  change (c :: m ++ rest) with ((c :: m) ++ rest).
  by rewrite length_app, Nat.add_sub, take_app_length.
Qed.

Lemma exec_some1_class_none (p : ascii → bool) (s : list ascii) :
  stops p s → exec (Some1 (Class p)) s = None.
Proof.
  intros Hs. unfold exec, Some1. cbn [run].
  destruct s as [|c s]; [done|]. simpl in Hs. by rewrite Hs.
Qed.


Lemma plain_unit (c : ascii) :
  isPathSyntax c = false →
  negb (isOneOf ["."; "["; "]"]%char c) = true ∧
  isOneOf [doubleQuote] c = false ∧ isOneOf [singleQuote] c = false ∧
  bool_decide (c = "]"%char) = false.
Proof. destruct c as [[] [] [] [] [] [] [] []]; vm_compute; intros; repeat split; congruence. Qed.

Lemma number_unit (c : ascii) :
  bool_decide (c = "-"%char) || Lodash.isDigit c || bool_decide (c = "."%char) = true →
  bool_decide (c = "]"%char) = false.
Proof. destruct c as [[] [] [] [] [] [] [] []]; vm_compute; intros; congruence. Qed.

Lemma reNumber_consumes : consumes (λ c, bool_decide (c = "]"%char) = false) reNumber.
Proof.
  cbv [reNumber Some1 Opt Str Lit list_ascii_of_string consumes].
  repeat split; auto; intros c Hc; apply number_unit; rewrite Hc;
    by rewrite ?orb_true_r.
Qed.

(** Two ways to cut a list at its first closing bracket agree. *)
Lemma first_bracket (l1 l2 r1 r2 : list ascii) :
  Forall (λ c, bool_decide (c = "]"%char) = false) l1 →
  Forall (λ c, bool_decide (c = "]"%char) = false) l2 →
  l1 ++ "]"%char :: r1 = l2 ++ "]"%char :: r2 → l1 = l2 ∧ r1 = r2.
Proof.
  intros H1. revert l2. induction H1 as [|c l1 Hc H1 IH]; intros l2 H2 Heq.
  - destruct H2 as [|d l2 Hd H2]; simpl in Heq.
    + by injection Heq.
    + injection Heq as <- _. done.
  - destruct H2 as [|d l2 Hd H2]; simpl in Heq.
    + injection Heq as -> _. done.
    + injection Heq as -> Heq. destruct (IH l2 H2 Heq) as [-> ->]. done.
Qed.

Lemma inner_bracketed (a b : ascii) (k : list ascii) : inner 1 (a :: k ++ [b]) = k.
Proof.
  unfold inner. cbn [drop].
  replace (length (a :: k ++ [b]) - 2 * 1)%nat with (length k)
    by (rewrite length_cons, length_app; simpl; lia).
  apply take_app_length.
Qed.

Lemma scanPath_step (fuel : nat) (s : list ascii) :
  scanPath (S fuel) s =
  match propName s with
  | Some (key, [], _) => key :: match s with [] => [] | _ :: s' => scanPath fuel s' end
  | Some (key, _ :: _, rest) => key :: scanPath fuel rest
  | None => match s with [] => [] | _ :: s' => scanPath fuel s' end
  end.
Proof. done. Qed.

Lemma scanPath_nil (fuel : nat) : scanPath fuel [] = [].
Proof. by destruct fuel. Qed.

Lemma scanPath_run (fuel : nat) (m rest : list ascii) :
  m ≠ [] → Forall (λ c, negb (isOneOf ["."; "["; "]"]%char c) = true) m →
  stops (λ c, negb (isOneOf ["."; "["; "]"]%char c)) rest →
  scanPath (S fuel) (m ++ rest) = m :: scanPath fuel rest.
Proof.
  intros Hne Hm Hrest. cbn [scanPath]. unfold propName, rePropRun.
  rewrite (exec_some1_class _ m rest Hne Hm Hrest).
  by destruct m.
Qed.

(** The bracketed part of the path of a key without path syntax. *)
Lemma scanPath_bracketed (fuel : nat) (key : list ascii) :
  Forall (λ c, isPathSyntax c = false) key →
  scanPath (S (S (S (S fuel)))) ("["%char :: key ++ ["]"%char]) = [key].
Proof.
  intros Hkey. destruct key as [|c key]; [by vm_compute|].
  assert (Forall (λ c, negb (isOneOf ["."; "["; "]"]%char c) = true) (c :: key)) as Hrun.
  { eapply Forall_impl; [exact Hkey|]. intros d Hd. by apply plain_unit. }
  assert (Forall (λ c, bool_decide (c = "]"%char) = false) (c :: key)) as Hclose.
  { eapply Forall_impl; [exact Hkey|]. intros d Hd. by apply plain_unit. }
  apply Forall_cons in Hkey as [Hc _]. apply plain_unit in Hc as (_ & Hdq & Hsq & Hcb).
  set (s := "["%char :: (c :: key) ++ ["]"%char]).
  assert (exec rePropRun s = None) as Hrun0 by (by apply exec_some1_class_none).
  assert (exec (rePropQuoted doubleQuote) s = None) as Hq1.
  { unfold exec, rePropQuoted, s. cbn [run Str Lit list_ascii_of_string app].
    rewrite bool_decide_eq_true_2 by done. by rewrite Hdq. }
  assert (exec (rePropQuoted singleQuote) s = None) as Hq2.
  { unfold exec, rePropQuoted, s. cbn [run Str Lit list_ascii_of_string app].
    rewrite bool_decide_eq_true_2 by done. by rewrite Hsq. }
  assert (exec rePropEmpty s = None) as Hempty.
  { unfold exec, rePropEmpty, s. cbn [run Str Lit list_ascii_of_string app Opt].
    rewrite (bool_decide_eq_false_2 ("["%char = "."%char)) by done.
    rewrite bool_decide_eq_true_2 by done. by rewrite Hcb. }
  rewrite scanPath_step. fold s. unfold propName. rewrite Hrun0.
  destruct (exec rePropIndex s) as [[m rest]|] eqn:Hindex.
  - (* the key is a number *)
    assert (m = s ∧ rest = []) as [-> ->].
    { revert Hindex. unfold exec.
      destruct (run _ rePropIndex s Some) as [rest'|] eqn:Hrun'; [|done].
      intros [= <- <-]. revert Hrun'. unfold rePropIndex, s.
      cbn [run Str Lit list_ascii_of_string]. rewrite bool_decide_eq_true_2 by done.
      intros (mid & s' & Heq & Hmid & Hclosing)%(run_consumes _ _ reNumber_consumes).
      destruct s' as [|d s']; [done|].
      destruct (bool_decide (d = "]"%char)) eqn:Hd; [|done].
      apply bool_decide_eq_true in Hd as ->. injection Hclosing as <-.
      destruct (first_bracket _ _ _ _ Hclose Hmid Heq) as [<- <-].
      split; [|done]. apply take_ge. simpl. lia. }
    assert (inner 1 s = c :: key) as ->.
    { apply inner_bracketed. }
    unfold s. cbv beta iota. by rewrite scanPath_nil.
  - rewrite Hq1, Hq2, Hempty. unfold s.
    rewrite (scanPath_run _ (c :: key) ["]"%char]); [|done|done|done].
    by destruct fuel.
Qed.

Lemma list_ascii_of_string_app (s1 s2 : string) :
  list_ascii_of_string (s1 +:+ s2) = list_ascii_of_string s1 ++ list_ascii_of_string s2.
Proof. induction s1 as [|c s1 IH]; [done|]. simpl. by rewrite IH. Qed.

(** A path of the form that [getPath] builds starts at the [contents]. *)
Lemma stringToPath_contents_head (key : string) :
  ∃ path, stringToPath ("contents[" +:+ key +:+ "]") = "contents" :: path.
Proof.
  unfold stringToPath. rewrite !list_ascii_of_string_app.
  set (rest := "["%char :: list_ascii_of_string key ++ list_ascii_of_string "]").
  change (list_ascii_of_string "contents[" ++ _)
    with (list_ascii_of_string "contents" ++ rest).
  rewrite scanPath_run; [|done|by repeat constructor|done].
  eexists. reflexivity.
Qed.

(** A key without path syntax is one name of the path. *)
Lemma stringToPath_contents_plain (key : string) :
  Forall (λ c, isPathSyntax c = false) (list_ascii_of_string key) →
  stringToPath ("contents[" +:+ key +:+ "]") = ["contents"; key].
Proof.
  intros Hkey. unfold stringToPath. rewrite !list_ascii_of_string_app.
  set (rest := "["%char :: list_ascii_of_string key ++ list_ascii_of_string "]").
  change (list_ascii_of_string "contents[" ++ _)
    with (list_ascii_of_string "contents" ++ rest).
  rewrite scanPath_run; [|done|by repeat constructor|done].
  change (length (list_ascii_of_string "contents" ++ rest))
    with (S (S (S (S (5 + length (list_ascii_of_string key ++ list_ascii_of_string "]")))))).
  unfold rest. change (list_ascii_of_string "]") with ["]"%char].
  rewrite scanPath_bracketed by done.
  cbn [fmap list_fmap app]. rewrite !string_of_list_ascii_of_string. reflexivity.
Qed.

End path_facts.

Section member_facts.
Context `{builtins : JavaScript.Builtins}.

Lemma plainKey_spec (key : string) :
  plainKey key = true ↔
  Forall (λ c, LodashPath.isPathSyntax c = false) (list_ascii_of_string key) ∧
  key ∉ JavaScript.objectPrototypeMembers.
Proof.
  unfold plainKey. rewrite andb_true_iff, bool_decide_eq_true, forallb_forall, Forall_forall.
  split; intros [Hunits Hname]; (split; [|done]); intros c Hc.
  - apply negb_true_iff, Hunits. by apply list_elem_of_In.
  - apply negb_true_iff, Hunits. by apply list_elem_of_In.
Qed.

Lemma getProperty_own (obj : object) (key : string) (v : ConfigValue) :
  obj !! key = Some v → JavaScript.getProperty obj key = Some (JavaScript.Own v).
Proof. intros Hv. unfold JavaScript.getProperty. by rewrite Hv. Qed.

Lemma getProperty_plain (obj : object) (key : string) :
  key ∉ JavaScript.objectPrototypeMembers →
  JavaScript.getProperty obj key = JavaScript.Own <$> obj !! key.
Proof.
  intros Hname. unfold JavaScript.getProperty.
  destruct (obj !! key); [done|]. by rewrite bool_decide_eq_false_2.
Qed.

(** For a plain key [_.get] reads the key's own entry of the contents. *)
Lemma get_contents_plain (store : option SfdxConfig.t) (key : string) :
  plainKey key = true →
  LodashObject.get_contents store key =
    c ← store; v ← SfdxConfig.contents c !! key;
    Some (LodashObject.Member (JavaScript.Own v)).
Proof.
  intros [Hunits Hname]%plainKey_spec. unfold LodashObject.get_contents.
  destruct store as [c|]; [|done]. cbn [mbind option_bind].
  rewrite stringToPath_contents_plain by done.
  rewrite bool_decide_eq_true_2 by done.
  rewrite getProperty_plain by done.
  by destruct (SfdxConfig.contents c !! key).
Qed.

Lemma get_contents_plain_nil (store : option SfdxConfig.t) (key : string) :
  plainKey key = true →
  isNil (LodashObject.get_contents store key) = isNil (storePath store key).
Proof.
  intros Hplain. rewrite get_contents_plain by done. unfold storePath.
  destruct store as [c|]; [|done]. cbn [mbind option_bind].
  by destruct (SfdxConfig.contents c !! key).
Qed.
End member_facts.


(** ** Facts about merging, the Environment layer and a load *)

(** lodash's documented examples of [_.snakeCase], and the keys of the
    aggregator's own documentation. *)
Example snakeCase_documented :
  Lodash.snakeCase "Foo Bar" = "foo_bar" ∧
  Lodash.snakeCase "fooBar" = "foo_bar" ∧
  Lodash.snakeCase "--FOO-BAR--" = "foo_bar".
Proof. repeat split; vm_compute; reflexivity. Qed.

Example propertyToEnvName_logLevel : propertyToEnvName "logLevel" = "SFDX_LOG_LEVEL".
Proof. vm_compute. reflexivity. Qed.

Section merge_facts.
Implicit Types obj source : object.

Lemma merge_lookup obj source key :
  LodashObject.merge obj source !! key =
    match source !! key with
    | Some v => Some v
    | None => obj !! key
    end.
Proof.
  unfold LodashObject.merge.
  apply (map_fold_weak_ind
           (λ result m, result !! key =
              match m !! key with Some v => Some v | None => obj !! key end)).
  - by rewrite lookup_empty.
  - intros i x m r Hi IH.
    destruct (decide (i = key)) as [->|Hne].
    + by rewrite !lookup_insert_eq.
    + by rewrite !lookup_insert_ne.
Qed.

Lemma merge_empty_l source : LodashObject.merge ∅ source = source.
Proof.
  apply map_eq; intros key. rewrite merge_lookup, lookup_empty.
  by destruct (source !! key).
Qed.
End merge_facts.

Section env_facts.
Context (w : World).

Lemma envReducer_lookup obj property key :
  envReducer w obj property !! key =
    if decide (key = ConfigPropertyMeta.key property)
    then match process_env w (propertyToEnvName key) with
         | Some s => Some (VString s)
         | None => obj !! key
         end
    else obj !! key.
Proof.
  unfold envReducer. case_decide as Hk.
  - subst key. destruct (process_env w _); [by rewrite lookup_insert_eq | done].
  - destruct (process_env w _); [by rewrite lookup_insert_ne | done].
Qed.

(** The Environment layer of a load: the value of the property's variable
    for every allowed key that has one, and nothing else. *)
Lemma envVars_lookup (allowed : list ConfigPropertyMeta.t) key :
  foldl (envReducer w) ∅ allowed !! key =
    if decide (key ∈ ConfigPropertyMeta.key <$> allowed)
    then VString <$> process_env w (propertyToEnvName key)
    else None.
Proof.
  induction allowed as [|property allowed IH] using rev_ind.
  - cbn [foldl]. rewrite lookup_empty.
    destruct (decide _) as [H|]; [by apply elem_of_nil in H | done].
  - rewrite foldl_snoc, envReducer_lookup, IH, fmap_app. simpl.
    set (l := ConfigPropertyMeta.key <$> allowed).
    set (k := ConfigPropertyMeta.key property).
    assert (key ∈ l ++ [k] ↔ key ∈ l ∨ key = k) as Happ
      by (by rewrite elem_of_app, list_elem_of_singleton).
    destruct (decide (key = k)) as [->|Hne].
    + rewrite (decide_True (P := k ∈ l ++ [k])) by (apply Happ; by right).
      destruct (process_env w _); [done|]. by destruct (decide _).
    + destruct (decide (key ∈ l)) as [Hin|Hnin].
      * by rewrite (decide_True (P := key ∈ l ++ [k])) by (apply Happ; by left).
      * by rewrite (decide_False (P := key ∈ l ++ [k])) by (rewrite Happ; tauto).
Qed.
End env_facts.

(** Unfolds one run of [loadProperties] into its case analysis. *)
Ltac run_load :=
  unfold loadProperties, tryCatch, await, throw, defined, read, readStore,
    setLocalConfig, setGlobalConfig, setAllowedProperties, setEnvVars, setConfig;
  unfold mbind, mret, M_bind, M_ret, outcome_bind; simpl.

Section load_facts.
Context `{builtins : JavaScript.Builtins} (w : World).

Lemma merge_empty_r (obj : object) : LodashObject.merge obj ∅ = obj.
Proof. unfold LodashObject.merge. by rewrite map_fold_empty. Qed.

Lemma loadProperties_Ok a0 a :
  loadProperties w a0 = (Ok (), a) →
  ∃ g gc,
    create_config w true = Ok g ∧ read_config w g = Ok gc ∧
    getGlobalConfig a =
      Some (SfdxConfig.mk (SfdxConfig.isGlobal g) (SfdxConfig.path g) gc) ∧
    allowedProperties a = Some (schema w) ∧
    envVars a = Some (foldl (envReducer w) ∅ (schema w)) ∧
    config a = Some (LodashObject.merge
                       (LodashObject.merge (LodashObject.merge ∅ gc) (localLayer a))
                       (foldl (envReducer w) ∅ (schema w))) ∧
    ((getLocalConfig a = None ∧ getLocalConfig a0 = None ∧
      ∃ e, create_config w false = Throw e ∧ name e = "InvalidProjectWorkspace")
     ∨ (∃ c lc, read_config w c = Ok lc ∧
          getLocalConfig a =
            Some (SfdxConfig.mk (SfdxConfig.isGlobal c) (SfdxConfig.path c) lc) ∧
          (create_config w false = Ok c
           ∨ getLocalConfig a0 = Some c ∧
             ∃ e, create_config w false = Throw e ∧ name e = "InvalidProjectWorkspace"))).
Proof.
  run_load. intros H.
  destruct (create_config w false) as [c|e] eqn:Hlocal; simpl in H.
  - (* the local store was created *)
    destruct (create_config w true) as [g|] eqn:Hglobal; [|done].
    destruct (read_config w g) as [gc|] eqn:Hgread; [|done].
    destruct (read_config w c) as [lc|] eqn:Hlread; [|done].
    simplify_eq/=. exists g, gc. unfold localLayer; simpl.
    repeat split; try done.
    right. exists c, lc. auto.
  - (* creating it threw *)
    case_bool_decide as Hname; [done|].
    destruct (create_config w true) as [g|] eqn:Hglobal; [|done].
    destruct (read_config w g) as [gc|] eqn:Hgread; [|done].
    destruct (localConfig a0) as [c|] eqn:Hold; simpl in H.
    + destruct (read_config w c) as [lc|] eqn:Hlread; [|done].
      simplify_eq/=. exists g, gc. unfold localLayer; simpl.
      repeat split; try done.
      right. exists c, lc. unfold getLocalConfig. eauto 10.
    + simplify_eq/=. exists g, gc. unfold localLayer; simpl.
      rewrite merge_empty_r. repeat split; try done.
      left. unfold getLocalConfig. eauto.
Qed.

Lemma loadProperties_Loaded a0 a : loadProperties w a0 = (Ok (), a) → Loaded w a.
Proof.
  intros (g & gc & _ & _ & Hg & Hallowed & Henv & Hcfg & _)%loadProperties_Ok.
  assert (environmentLayer a = foldl (envReducer w) ∅ (schema w)) as Hlayer
    by (unfold environmentLayer, getEnvVars; by rewrite Henv).
  split.
  - done.
  - by rewrite Hg.
  - by rewrite Hlayer.
  - intros key. rewrite Hlayer. apply envVars_lookup.
  - eexists; split; [exact Hcfg|]. intros key.
    rewrite !merge_lookup, lookup_empty. unfold overlay.
    rewrite Hlayer. unfold globalLayer. rewrite Hg. simpl.
    destruct (foldl _ _ _ !! key); [done|].
    destruct (localLayer a !! key); [done|]. by destruct (gc !! key).
Qed.

Lemma allowed_existsb (key : string) :
  existsb (λ element, bool_decide (key = ConfigPropertyMeta.key element)) (schema w) = true
  ↔ key ∈ allowedKeys w.
Proof.
  unfold allowedKeys. rewrite existsb_exists, list_elem_of_fmap.
  split.
  - intros (x & Hx%list_elem_of_In & Hk%bool_decide_eq_true). eauto.
  - intros (x & Hk & Hx). exists x. by rewrite <- list_elem_of_In, bool_decide_eq_true.
Qed.

Lemma getPropertyValue_allowed this key :
  Loaded w this → key ∈ allowedKeys w →
  getPropertyValue this key = Ok (overlay this key).
Proof.
  intros [Hallowed _ _ _ (cfg & Hcfg & Hlookup)] Hin.
  unfold getPropertyValue. rewrite Hallowed, Hcfg.
  apply allowed_existsb in Hin as ->. by rewrite Hlookup.
Qed.

Lemma getPropertyValue_unknown this key :
  Loaded w this → key ∉ allowedKeys w →
  getPropertyValue this key =
    Throw (SfdxError ("Unknown config key: " +:+ key) "UnknownConfigKey").
Proof.
  intros [Hallowed _ _ _ _] Hnin.
  unfold getPropertyValue. rewrite Hallowed.
  destruct (existsb _ _) eqn:Hex; [|done].
  by apply allowed_existsb in Hex.
Qed.

(** After a load [getPath] returns: the stores it asks for a path exist. *)
Lemma getPath_resolved this key :
  Loaded w this → getPath this key = Ok (resolvedPath this key).
Proof.
  intros [_ [g Hg] Henv _ _].
  assert (∃ p, getPath this key = Ok p) as [p Hp]; [|unfold resolvedPath; by rewrite Hp].
  unfold getPath. rewrite Henv, Hg.
  destruct (negb (isNil (JavaScript.getProperty _ key))); [by eexists|].
  destruct (getLocalConfig this) as [c|].
  - destruct (negb (isNil (LodashObject.get_contents (Some c) key))); [by eexists|].
    destruct (negb (isNil (LodashObject.get_contents (Some g) key))); by eexists.
  - change (LodashObject.get_contents None key) with (@None LodashObject.gotten).
    cbn [isNil negb].
    destruct (negb (isNil (LodashObject.get_contents (Some g) key))); by eexists.
Qed.

(** A key that the Environment holds has the variable's name for its path. *)
Lemma getPath_environment this key v :
  Loaded w this → environmentLayer this !! key = Some v →
  getPath this key = Ok (Some ("$" +:+ propertyToEnvName key)).
Proof.
  intros [_ _ Henv _ _] Hv. unfold getPath. rewrite Henv.
  by rewrite (getProperty_own _ _ _ Hv).
Qed.

(** For a plain key [getPath] goes by presence in the layers. *)
Lemma getPath_plain this key :
  Loaded w this → plainKey key = true → getPath this key = Ok (pathByPresence this key).
Proof.
  intros [_ _ Henv _ _] Hplain. unfold getPath, pathByPresence. rewrite Henv.
  rewrite getProperty_plain by (by apply plainKey_spec in Hplain as [_ ?]).
  destruct (environmentLayer this !! key); [done|]. cbn [fmap option_fmap option_map isNil negb].
  rewrite !get_contents_plain_nil by done.
  unfold storePath.
  destruct (getLocalConfig this) as [c|]; cbn [mbind option_bind].
  - destruct (SfdxConfig.contents c !! key); [done|]. cbn [isNil negb].
    destruct (getGlobalConfig this) as [g|]; [|done]. cbn [mbind option_bind].
    by destruct (SfdxConfig.contents g !! key).
  - cbn [isNil negb]. destruct (getGlobalConfig this) as [g|]; [|done]. cbn [mbind option_bind].
    by destruct (SfdxConfig.contents g !! key).
Qed.

Lemma getLocation_spec this key :
  getLocation this key =
    match environmentLayer this !! key with
    | Some _ => Some ENVIRONMENT
    | None => fileLocation this key
    end.
Proof.
  unfold getLocation, fileLocation, environmentLayer, localLayer, globalLayer.
  destruct (getEnvVars this !! key); [done|]. simpl.
  unfold SfdxConfig.get.
  destruct (getLocalConfig this), (getGlobalConfig this); simpl;
    rewrite ?lookup_empty; done.
Qed.
End load_facts.

(** *** The listing *)

Section listing_facts.
Context {A B : Type}.

Lemma mapOutcome_Ok (f : A → outcome B) (g : A → B) (l : list A) :
  (∀ x, x ∈ l → f x = Ok (g x)) → mapOutcome f l = Ok (g <$> l).
Proof.
  induction l as [|x l IH]; intros Hf; [done|].
  simpl. rewrite (Hf x) by (apply elem_of_cons; auto). simpl.
  rewrite IH; [done|]. intros y Hy. apply Hf, elem_of_cons; auto.
Qed.

Lemma mapOutcome_Throw (f : A → outcome B) (g : A → B) (err : A → Error)
    (bad : A → Prop) (l : list A) :
  (∀ x, x ∈ l → f x = Ok (g x) ∨ (bad x ∧ f x = Throw (err x))) →
  (∃ x, x ∈ l ∧ f x = Throw (err x)) →
  ∃ x, x ∈ l ∧ bad x ∧ mapOutcome f l = Throw (err x).
Proof.
  induction l as [|x l IH]; intros Hf (y & Hy & Hthrow).
  { by apply elem_of_nil in Hy. }
  destruct (Hf x) as [Hok|[Hbad Hx]]; [apply elem_of_cons; auto| |].
  - destruct IH as (z & Hz & Hzbad & Hmap).
    + intros z Hz. apply Hf, elem_of_cons; auto.
    + apply elem_of_cons in Hy as [->|Hy]; [congruence|eauto].
    + exists z. split; [apply elem_of_cons; auto|]. split; [done|].
      simpl. rewrite Hok. simpl. by rewrite Hmap.
  - exists x. split; [apply elem_of_cons; auto|]. split; [done|].
    simpl. by rewrite Hx.
Qed.
End listing_facts.

Section sortBy_facts.
Context {A : Type} (iteratee : A → string).

Local Instance ascendingBy_transitive : Transitive (LodashObject.ascendingBy iteratee).
Proof. intros x y z. unfold LodashObject.ascendingBy. apply transitivity. Qed.
Local Instance ascendingBy_total : Total (LodashObject.ascendingBy iteratee).
Proof. intros x y. unfold LodashObject.ascendingBy. apply total, _. Qed.

Lemma sortBy_Permutation (l : list A) : LodashObject.sortBy l iteratee ≡ₚ l.
Proof. apply merge_sort_Permutation. Qed.

Lemma le_ne_ltb (s1 s2 : string) : String.le s1 s2 → s1 ≠ s2 → String.ltb s1 s2 = true.
Proof.
  unfold String.le, String.leb, String.ltb. intros Hle Hne.
  destruct (String.compare s1 s2) eqn:Hcmp; [|done|done].
  by apply String.compare_eq_iff in Hcmp.
Qed.

Lemma StronglySorted_strict (l : list A) :
  StronglySorted (LodashObject.ascendingBy iteratee) l → NoDup (iteratee <$> l) →
  StronglySorted (λ x y, String.ltb (iteratee x) (iteratee y) = true) l.
Proof.
  induction 1 as [|x l Hsorted IH Hall]; intros Hnodup; [constructor|].
  rewrite fmap_cons in Hnodup. apply NoDup_cons in Hnodup as [Hx Hnodup].
  constructor; [by apply IH|].
  rewrite Forall_forall in Hall |- *. intros y Hy.
  apply le_ne_ltb; [by apply Hall|].
  intros Heq. apply Hx. rewrite Heq. by apply list_elem_of_fmap_2.
Qed.

(** Sorting records with distinct keys leaves them in strictly ascending
    order of the key. *)
Lemma sortBy_strict (l : list A) :
  NoDup (iteratee <$> l) →
  StronglySorted (λ x y, String.ltb (iteratee x) (iteratee y) = true)
    (LodashObject.sortBy l iteratee).
Proof.
  intros Hnodup. apply StronglySorted_strict.
  - apply (StronglySorted_merge_sort (LodashObject.ascendingBy iteratee)).
  - by rewrite sortBy_Permutation.
Qed.
End sortBy_facts.

Section getInfo_facts.
Context `{builtins : JavaScript.Builtins} (w : World) (this : t) (Hloaded : Loaded w this).

Lemma getInfo_allowed key : key ∈ allowedKeys w → getInfo this key = Ok (infoOf this key).
Proof.
  intros Hin. unfold getInfo.
  by rewrite (getPropertyValue_allowed w), (getPath_resolved w).
Qed.

Lemma getInfo_unknown key :
  key ∉ allowedKeys w →
  getInfo this key = Throw (SfdxError ("Unknown config key: " +:+ key) "UnknownConfigKey").
Proof. intros Hnin. unfold getInfo. by rewrite (getPropertyValue_unknown w). Qed.
End getInfo_facts.

Lemma elem_of_keys (obj : object) (key : string) :
  key ∈ (LodashObject.keys obj) ↔ is_Some (obj !! key).
Proof.
  unfold LodashObject.keys. rewrite list_elem_of_fmap. split.
  - intros ([k v] & -> & Hkv%elem_of_map_to_list). by exists v.
  - intros [v Hv]. exists (key, v). split; [done|]. by apply elem_of_map_to_list.
Qed.

Ltac in_list := apply list_elem_of_In; simpl; tauto.

(** ** The claims *)

(** C1. After a load the resolved snapshot is the last-writer-wins overlay of
    the three layers, Environment over Local over Global, key by key; for an
    allowed key [getPropertyValue] returns that overlay's value, the
    Environment value of the key is the value of its environment variable,
    and a key with a value in all three layers resolves to the Environment
    value. *)
Theorem getPropertyValue_precedence (w : World) (a0 a : t) (key : string) :
  loadProperties w a0 = (Ok (), a) →
  key ∈ allowedKeys w →
  getConfig a = Some (environmentLayer a ∪ (localLayer a ∪ globalLayer a)) ∧
  getPropertyValue a key = Ok (overlay a key) ∧
  environmentLayer a !! key = VString <$> process_env w (propertyToEnvName key) ∧
  (∀ ve vl vg,
     environmentLayer a !! key = Some ve →
     localLayer a !! key = Some vl →
     globalLayer a !! key = Some vg →
     getPropertyValue a key = Ok (Some ve)).
Proof.
  intros Hload Hin.
  pose proof (loadProperties_Loaded w a0 a Hload) as Hl.
  pose proof (getPropertyValue_allowed w a key Hl Hin) as Hvalue.
  destruct Hl as [_ _ _ Henv (cfg & Hcfg & Hlookup)].
  repeat split.
  - rewrite Hcfg. f_equal. apply map_eq; intros k.
    rewrite Hlookup, !lookup_union. unfold overlay.
    destruct (environmentLayer a !! k), (localLayer a !! k), (globalLayer a !! k); done.
  - done.
  - rewrite Henv. by rewrite decide_True.
  - intros ve vl vg Hve _ _. rewrite Hvalue. unfold overlay. by rewrite Hve.
Qed.

Lemma getPropertyValue_precedence_witness :
  loadProperties Examples.threeLayers new = (Ok (), Examples.threeLayersLoaded) ∧
  "defaultusername" ∈ allowedKeys Examples.threeLayers ∧
  getPropertyValue Examples.threeLayersLoaded "defaultusername" = Ok (Some (VString "carol")).
Proof.
  assert (loadProperties Examples.threeLayers new = (Ok (), Examples.threeLayersLoaded))
    as Hload by (vm_compute; reflexivity).
  assert ("defaultusername" ∈ allowedKeys Examples.threeLayers) as Hin by in_list.
  split; [exact Hload|]. split; [exact Hin|].
  destruct (getPropertyValue_precedence _ _ _ _ Hload Hin) as (_ & _ & _ & Hall).
  apply (Hall (VString "carol") (VString "alice") (VString "bob")); vm_compute; reflexivity.
Defined.

(** C2, the claim as stated fails: a key that only Local holds, with the value
    false, is in the snapshot and [getLocation] reports no Source for it. *)
Lemma getLocation_reports_no_source :
  loadProperties Examples.falsyLocal new = (Ok (), Examples.falsyLocalLoaded) ∧
  (getConfig Examples.falsyLocalLoaded ≫= (.!! "restDeploy")) = Some (VBool false) ∧
  localLayer Examples.falsyLocalLoaded !! "restDeploy" = Some (VBool false) ∧
  getLocation Examples.falsyLocalLoaded "restDeploy" = None.
Proof. repeat split; vm_compute; reflexivity. Qed.

(** C2, amended. For every key of the resolved snapshot some layer holds the
    key and [getLocation] reports at most one Source; a reported Source is a
    layer that holds the key; it reports none exactly when the Environment
    has no value for the key and neither file layer holds a truthy one. *)
Theorem getLocation_provenance (w : World) (a0 a : t) (cfg : object) (key : string) :
  loadProperties w a0 = (Ok (), a) →
  getConfig a = Some cfg →
  is_Some (cfg !! key) →
  (is_Some (environmentLayer a !! key) ∨ is_Some (localLayer a !! key)
   ∨ is_Some (globalLayer a !! key)) ∧
  (∀ src, getLocation a key = Some src → is_Some (layer a src !! key)) ∧
  (getLocation a key = None ↔
     environmentLayer a !! key = None ∧
     truthy (localLayer a !! key) = false ∧
     truthy (globalLayer a !! key) = false).
Proof.
  intros Hload Hcfg Hkey.
  destruct (loadProperties_Loaded w a0 a Hload) as [_ _ _ _ (cfg' & Hcfg' & Hlookup)].
  assert (cfg' = cfg) as -> by congruence.
  rewrite Hlookup in Hkey. unfold overlay in Hkey.
  rewrite getLocation_spec. unfold fileLocation.
  split; [|split].
  - destruct (environmentLayer a !! key); [by left|].
    destruct (localLayer a !! key); [right; by left|]. right; by right.
  - intros src.
    destruct (environmentLayer a !! key) eqn:He.
    { intros [= <-]. simpl. by rewrite He. }
    destruct (localLayer a !! key) as [vl|] eqn:Hl.
    + destruct (truthy (Some vl)).
      { intros [= <-]. simpl. by rewrite Hl. }
      destruct (globalLayer a !! key) as [vg|] eqn:Hg; [|done].
      destruct (truthy (Some vg)); [|done].
      intros [= <-]. simpl. by rewrite Hg.
    + simpl. destruct (globalLayer a !! key) as [vg|] eqn:Hg; [|done].
      destruct (truthy (Some vg)); [|done].
      intros [= <-]. simpl. by rewrite Hg.
  - destruct (environmentLayer a !! key).
    { split; [done|]. by intros [? _]. }
    destruct (truthy (localLayer a !! key)).
    { split; [done|]. by intros (_ & ? & _). }
    destruct (truthy (globalLayer a !! key)).
    { split; [done|]. by intros (_ & _ & ?). }
    done.
Qed.

Lemma getLocation_provenance_witness :
  loadProperties Examples.threeLayers new = (Ok (), Examples.threeLayersLoaded) ∧
  getLocation Examples.threeLayersLoaded "restDeploy" = Some GLOBAL ∧
  is_Some (globalLayer Examples.threeLayersLoaded !! "restDeploy").
Proof.
  assert (loadProperties Examples.threeLayers new = (Ok (), Examples.threeLayersLoaded))
    as Hload by (vm_compute; reflexivity).
  assert (getLocation Examples.threeLayersLoaded "restDeploy" = Some GLOBAL)
    as Hloc by (vm_compute; reflexivity).
  split; [exact Hload|]. split; [exact Hloc|].
  refine (proj1 (proj2 (getLocation_provenance Examples.threeLayers new
            Examples.threeLayersLoaded _ "restDeploy" Hload eq_refl _)) GLOBAL Hloc).
  vm_compute. eauto.
Defined.

Section listing_examples.
Local Existing Instance Examples.builtins.

(** C3, the claim as stated fails: with a key in the local file that the
    schema does not have, the snapshot holds the key and [getConfigInfo]
    throws instead of returning a record for it. *)
Lemma getConfigInfo_throws_on_stray_key :
  loadProperties Examples.strayKey new = (Ok (), Examples.strayKeyLoaded) ∧
  ("colour" ∉ allowedKeys Examples.strayKey) ∧
  (getConfig Examples.strayKeyLoaded ≫= (.!! "colour")) = Some (VBool false) ∧
  getConfigInfo Examples.strayKeyLoaded =
    Throw (SfdxError "Unknown config key: colour" "UnknownConfigKey").
Proof.
  split; [vm_compute; reflexivity|]. split.
  - rewrite list_elem_of_In. simpl. intros H. decompose [or] H; done.
  - split; vm_compute; reflexivity.
Qed.
End listing_examples.

Section listing.
Context `{builtins : JavaScript.Builtins}.

(** C3, amended. After a load: when every key of the snapshot is in the
    schema, [getConfigInfo] returns one record per key of the snapshot, each
    the [getInfo] of its key, in strictly ascending order of the key; when the
    snapshot holds a key outside the schema, it throws UnknownConfigKey for
    such a key. *)
Theorem getConfigInfo_listing (w : World) (a0 a : t) (cfg : object) :
  loadProperties w a0 = (Ok (), a) →
  getConfig a = Some cfg →
  ((∀ key, is_Some (cfg !! key) → key ∈ allowedKeys w) →
     ∃ info, getConfigInfo a = Ok info ∧
       NoDup (ConfigInfo.key <$> info) ∧
       (∀ key, key ∈ (ConfigInfo.key <$> info) ↔ is_Some (cfg !! key)) ∧
       (∀ i, i ∈ info → getInfo a (ConfigInfo.key i) = Ok i) ∧
       StronglySorted
         (λ i j, String.ltb (ConfigInfo.key i) (ConfigInfo.key j) = true) info) ∧
  ((∃ key, is_Some (cfg !! key) ∧ key ∉ allowedKeys w) →
     ∃ key, is_Some (cfg !! key) ∧ (key ∉ allowedKeys w) ∧
       getConfigInfo a =
         Throw (SfdxError ("Unknown config key: " +:+ key) "UnknownConfigKey")).
Proof.
  intros Hload Hcfg.
  pose proof (loadProperties_Loaded w a0 a Hload) as Hl.
  unfold getConfigInfo. rewrite Hcfg.
  change (default ∅ (Some cfg)) with cfg.
  assert (ConfigInfo.key <$> (infoOf a <$> LodashObject.keys cfg) = LodashObject.keys cfg)
    as Hkeys.
  { rewrite <- list_fmap_compose. apply list_fmap_id. }
  split.
  - intros Hall.
    exists (LodashObject.sortBy (infoOf a <$> LodashObject.keys cfg) ConfigInfo.key).
    rewrite (mapOutcome_Ok (λ key, getInfo a key) (infoOf a)); cycle 1.
    { intros key Hkey%elem_of_keys. by apply (getInfo_allowed w), Hall. }
    assert (NoDup (ConfigInfo.key <$> (infoOf a <$> LodashObject.keys cfg))) as Hnodup.
    { rewrite Hkeys. apply NoDup_fst_map_to_list. }
    repeat split.
    + by rewrite sortBy_Permutation.
    + rewrite sortBy_Permutation, Hkeys. apply elem_of_keys.
    + rewrite sortBy_Permutation, Hkeys. apply elem_of_keys.
    + intros i. rewrite sortBy_Permutation.
      intros (key & -> & Hkey%elem_of_keys)%list_elem_of_fmap. simpl.
      by apply (getInfo_allowed w), Hall.
    + by apply sortBy_strict.
  - intros (key & Hkey & Hnin).
    destruct (mapOutcome_Throw (λ key, getInfo a key) (infoOf a)
                (λ key, SfdxError ("Unknown config key: " +:+ key) "UnknownConfigKey")
                (λ key, key ∉ allowedKeys w) (LodashObject.keys cfg))
      as (bad & Hbad & Hbadnin & Hmap).
    + intros k _. destruct (decide (k ∈ allowedKeys w)).
      * left. by apply (getInfo_allowed w).
      * right. split; [done|]. by apply (getInfo_unknown w).
    + exists key. split; [by apply elem_of_keys|]. by apply (getInfo_unknown w).
    + exists bad. split; [by apply elem_of_keys|]. split; [done|]. by rewrite Hmap.
Qed.
End listing.

Section listing_witness.
Local Existing Instance Examples.builtins.

Lemma getConfigInfo_listing_witness :
  loadProperties Examples.threeLayers new = (Ok (), Examples.threeLayersLoaded) ∧
  ∃ info, getConfigInfo Examples.threeLayersLoaded = Ok info ∧
    StronglySorted (λ i j, String.ltb (ConfigInfo.key i) (ConfigInfo.key j) = true) info.
Proof.
  assert (loadProperties Examples.threeLayers new = (Ok (), Examples.threeLayersLoaded))
    as Hload by (vm_compute; reflexivity).
  split; [exact Hload|].
  destruct (getConfigInfo_listing Examples.threeLayers new Examples.threeLayersLoaded
              _ Hload eq_refl) as [Hlist _].
  destruct Hlist as (info & Hinfo & _ & _ & _ & Hsorted).
  - intros key [v Hv]. revert key v Hv.
    apply (bool_decide_unpack
             (map_Forall (λ key _, key ∈ allowedKeys Examples.threeLayers) _)).
    vm_compute. exact I.
  - exists info. split; [exact Hinfo | exact Hsorted].
Defined.
End listing_witness.

(** C4, the claim as stated fails: a reload whose read of the global file
    throws leaves the new stores and the new Environment layer in the fields
    next to the old snapshot. *)
Lemma reload_failure_overwrites_fields :
  loadProperties Examples.before new = (Ok (), Examples.beforeLoaded) ∧
  reload Examples.unreadableGlobal Examples.beforeLoaded =
    (Throw Examples.EACCES, Examples.afterFailedReload) ∧
  name Examples.EACCES ≠ "InvalidProjectWorkspace" ∧
  Examples.afterFailedReload ≠ Examples.beforeLoaded ∧
  getLocation Examples.beforeLoaded "defaultusername" = Some GLOBAL ∧
  getLocation Examples.afterFailedReload "defaultusername" = Some ENVIRONMENT ∧
  getPropertyValue Examples.afterFailedReload "defaultusername" = Ok (Some (VString "bob")).
Proof.
  split; [vm_compute; reflexivity|]. split; [vm_compute; reflexivity|].
  split; [done|]. split.
  - intros Heq. apply (f_equal (λ this, getLocation this "defaultusername")) in Heq.
    vm_compute in Heq. discriminate.
  - repeat split; vm_compute; reflexivity.
Qed.

(** C4, amended. When a load throws, the error is the one a collaborator
    threw (creating the local store with a name other than
    InvalidProjectWorkspace, creating the global store, or reading a store)
    and the resolved snapshot keeps its prior value. When the error comes
    from creating the local store no field is changed. Otherwise the local
    store field holds the store just created, if one was. When the error
    comes from creating the global store the three other fields are as
    before; when it comes from a read they are those of the new load: the
    schema, the new Environment layer and the new global store, with the
    contents read when it is the read of the local store that throws. *)
Theorem loadProperties_failure (w : World) (a0 a : t) (e : Error) :
  loadProperties w a0 = (Throw e, a) →
  ((create_config w false = Throw e ∧ name e ≠ "InvalidProjectWorkspace")
   ∨ create_config w true = Throw e
   ∨ ∃ c, read_config w c = Throw e) ∧
  getConfig a = getConfig a0 ∧
  (∀ e0, create_config w false = Throw e0 →
     name e0 ≠ "InvalidProjectWorkspace" → e = e0 ∧ a = a0) ∧
  (∀ c, create_config w false = Ok c → getLocalConfig a = Some c) ∧
  (localCreationPasses w →
     getLocalConfig a = localStoreToRead w a0 ∧
     (∀ e1, create_config w true = Throw e1 →
        e = e1 ∧
        getGlobalConfig a = getGlobalConfig a0 ∧
        allowedProperties a = allowedProperties a0 ∧
        envVars a = envVars a0) ∧
     (∀ g, create_config w true = Ok g →
        allowedProperties a = Some (schema w) ∧
        envVars a = Some (foldl (envReducer w) ∅ (schema w)) ∧
        (∀ e2, read_config w g = Throw e2 → e = e2 ∧ getGlobalConfig a = Some g) ∧
        (∀ gc, read_config w g = Ok gc →
           getGlobalConfig a =
             Some (SfdxConfig.mk (SfdxConfig.isGlobal g) (SfdxConfig.path g) gc) ∧
           ∃ c, localStoreToRead w a0 = Some c ∧ read_config w c = Throw e))).
Proof.
  unfold localCreationPasses, localStoreToRead. run_load. intros H.
  destruct (create_config w false) as [c|e0] eqn:Hlocal; simpl in H.
  - destruct (create_config w true) as [g|e1] eqn:Hglobal.
    + destruct (read_config w g) as [gc|e2] eqn:Hgread.
      * destruct (read_config w c) as [lc|e3] eqn:Hlread; [done|].
        simplify_eq/=. split; [eauto|].
        repeat split; try done; try congruence; eauto.
      * simplify_eq/=. split; [eauto|]. repeat split; try done; congruence.
    + simplify_eq/=. split; [eauto|]. repeat split; try done; congruence.
  - case_bool_decide as Hname.
    + simplify_eq/=. split; [eauto|]. repeat split; try done; congruence.
    + destruct (create_config w true) as [g|e1] eqn:Hglobal.
      * destruct (read_config w g) as [gc|e2] eqn:Hgread.
        -- destruct (localConfig a0) as [c|] eqn:Hold; simpl in H; [|done].
           destruct (read_config w c) as [lc|e3] eqn:Hlread; [done|].
           simplify_eq/=. split; [eauto|].
           repeat split; try done; try congruence; eauto.
        -- simplify_eq/=. split; [eauto|]. repeat split; try done; congruence.
      * simplify_eq/=. split; [eauto|]. repeat split; try done; congruence.
Qed.

Lemma loadProperties_failure_witness :
  loadProperties Examples.unreadableGlobal Examples.beforeLoaded =
    (Throw Examples.EACCES, Examples.afterFailedReload) ∧
  getConfig Examples.afterFailedReload = getConfig Examples.beforeLoaded ∧
  allowedProperties Examples.afterFailedReload = Some (schema Examples.unreadableGlobal) ∧
  envVars Examples.afterFailedReload =
    Some (foldl (envReducer Examples.unreadableGlobal) ∅ (schema Examples.unreadableGlobal)) ∧
  getGlobalConfig Examples.afterFailedReload = Some (Examples.globalStore ∅).
Proof.
  assert (loadProperties Examples.unreadableGlobal Examples.beforeLoaded =
            (Throw Examples.EACCES, Examples.afterFailedReload))
    as Hload by (vm_compute; reflexivity).
  split; [exact Hload|].
  destruct (loadProperties_failure _ _ _ _ Hload) as (_ & Hconfig & _ & _ & Hlater).
  split; [exact Hconfig|].
  destruct (Hlater I) as (_ & _ & Hreads).
  destruct (Hreads (Examples.globalStore ∅) eq_refl) as (Hallowed & Henv & Hglobal & _).
  split; [exact Hallowed|]. split; [exact Henv|].
  exact (proj2 (Hglobal Examples.EACCES eq_refl)).
Defined.

(** C5. After a load [getPropertyValue] throws the error named
    UnknownConfigKey exactly for the keys outside the schema, whatever the
    layers hold; for a key of the schema it returns the snapshot's value,
    which is [undefined] when no layer holds the key. *)
Theorem getPropertyValue_unknown_key (w : World) (a0 a : t) (key : string) :
  loadProperties w a0 = (Ok (), a) →
  (key ∉ allowedKeys w ↔
     ∃ e, getPropertyValue a key = Throw e ∧ name e = "UnknownConfigKey") ∧
  (key ∉ allowedKeys w →
     getPropertyValue a key =
       Throw (SfdxError ("Unknown config key: " +:+ key) "UnknownConfigKey")) ∧
  (key ∈ allowedKeys w → getPropertyValue a key = Ok (overlay a key)) ∧
  (key ∈ allowedKeys w →
     environmentLayer a !! key = None →
     localLayer a !! key = None →
     globalLayer a !! key = None →
     getPropertyValue a key = Ok None).
Proof.
  intros Hload.
  pose proof (loadProperties_Loaded w a0 a Hload) as Hl.
  split; [|split; [|split]].
  - split.
    + intros Hnin. eexists. split; [by apply (getPropertyValue_unknown w)|done].
    + intros (e & He & _) Hin.
      rewrite (getPropertyValue_allowed w a key Hl Hin) in He. discriminate.
  - by apply (getPropertyValue_unknown w).
  - by apply (getPropertyValue_allowed w).
  - intros Hin He Hlo Hg.
    rewrite (getPropertyValue_allowed w a key Hl Hin).
    unfold overlay. by rewrite He, Hlo, Hg.
Qed.

Lemma getPropertyValue_unknown_key_witness :
  loadProperties Examples.threeLayers new = (Ok (), Examples.threeLayersLoaded) ∧
  getPropertyValue Examples.threeLayersLoaded "instanceUrl" = Ok None ∧
  getPropertyValue Examples.threeLayersLoaded "totally-unknown-key" =
    Throw (SfdxError "Unknown config key: totally-unknown-key" "UnknownConfigKey").
Proof.
  assert (loadProperties Examples.threeLayers new = (Ok (), Examples.threeLayersLoaded))
    as Hload by (vm_compute; reflexivity).
  split; [exact Hload|]. split.
  - apply (getPropertyValue_unknown_key _ _ _ "instanceUrl" Hload);
      [in_list | vm_compute; reflexivity ..].
  - apply (getPropertyValue_unknown_key _ _ _ "totally-unknown-key" Hload).
    rewrite list_elem_of_In. simpl. intros H. decompose [or] H; done.
Defined.

(** C6. When the Environment does not set a key, Local sets it to false and
    Global sets it to true, [getLocation] returns Global, skipping Local's
    falsy value, while the snapshot holds Local's false, which
    [getPropertyValue] returns for the key (a key of the schema, as every key
    [getPropertyValue] answers for). *)
Theorem getLocation_truthiness_asymmetry (w : World) (a0 a : t) (key : string) :
  loadProperties w a0 = (Ok (), a) →
  environmentLayer a !! key = None →
  localLayer a !! key = Some (VBool false) →
  globalLayer a !! key = Some (VBool true) →
  getLocation a key = Some GLOBAL ∧
  (getConfig a ≫= (.!! key)) = Some (VBool false) ∧
  (key ∈ allowedKeys w → getPropertyValue a key = Ok (Some (VBool false))).
Proof.
  intros Hload He Hlo Hg.
  pose proof (loadProperties_Loaded w a0 a Hload) as Hl.
  assert (overlay a key = Some (VBool false)) as Hov
    by (unfold overlay; by rewrite He, Hlo).
  split; [|split].
  - rewrite getLocation_spec, He. unfold fileLocation. by rewrite Hlo, Hg.
  - destruct Hl as [_ _ _ _ (cfg & Hcfg & Hlookup)].
    rewrite Hcfg. simpl. by rewrite Hlookup.
  - intros Hin. by rewrite (getPropertyValue_allowed w a key Hl Hin), Hov.
Qed.

Lemma getLocation_truthiness_asymmetry_witness :
  loadProperties Examples.threeLayers new = (Ok (), Examples.threeLayersLoaded) ∧
  getLocation Examples.threeLayersLoaded "restDeploy" = Some GLOBAL ∧
  (getConfig Examples.threeLayersLoaded ≫= (.!! "restDeploy")) = Some (VBool false) ∧
  getPropertyValue Examples.threeLayersLoaded "restDeploy" = Ok (Some (VBool false)).
Proof.
  assert (loadProperties Examples.threeLayers new = (Ok (), Examples.threeLayersLoaded))
    as Hload by (vm_compute; reflexivity).
  split; [exact Hload|].
  destruct (getLocation_truthiness_asymmetry Examples.threeLayers new
              Examples.threeLayersLoaded "restDeploy" Hload)
    as (Hloc & Hsnap & Hvalue); [vm_compute; reflexivity ..|].
  split; [exact Hloc|]. split; [exact Hsnap|]. apply Hvalue. in_list.
Defined.

Section path_departure.
Context `{builtins : JavaScript.Builtins}.

(** C7, where the code departs from the claim. [getPath] reads
    [this.envVars[key]] as a property of a plain object and hands [_.get] a
    path string built from the key, where [getLocation] asks the Map of
    [getEnvVars()] and the stores' [get(key)]. For the key constructor, which
    no layer holds and whose environment variable is not set, it returns
    $SFDX_CONSTRUCTOR where presence in the layers gives no path. For the key
    org.alias, which the local file holds, it returns no path where presence
    gives the local store's path and [getLocation] says Local. *)
Theorem getPath_departs_from_presence :
  loadProperties Examples.threeLayers new = (Ok (), Examples.threeLayersLoaded) ∧
  process_env Examples.threeLayers (propertyToEnvName "constructor") = None ∧
  environmentLayer Examples.threeLayersLoaded !! "constructor" = None ∧
  localLayer Examples.threeLayersLoaded !! "constructor" = None ∧
  globalLayer Examples.threeLayersLoaded !! "constructor" = None ∧
  pathByPresence Examples.threeLayersLoaded "constructor" = None ∧
  getLocation Examples.threeLayersLoaded "constructor" = None ∧
  getPath Examples.threeLayersLoaded "constructor" = Ok (Some "$SFDX_CONSTRUCTOR") ∧
  loadProperties Examples.dottedKey new = (Ok (), Examples.dottedKeyLoaded) ∧
  environmentLayer Examples.dottedKeyLoaded !! "org.alias" = None ∧
  localLayer Examples.dottedKeyLoaded !! "org.alias" = Some (VString "dev") ∧
  pathByPresence Examples.dottedKeyLoaded "org.alias" = Some Examples.localPath ∧
  getLocation Examples.dottedKeyLoaded "org.alias" = Some LOCAL ∧
  getPath Examples.dottedKeyLoaded "org.alias" = Ok None.
Proof. repeat split; vm_compute; reflexivity. Qed.
End path_departure.

Section outside_project.
Context `{builtins : JavaScript.Builtins}.

End outside_project.

Section outside_project_witness.
Local Existing Instance Examples.builtins.

End outside_project_witness.

Section naming.
Context `{builtins : JavaScript.Builtins}.

(** C9. The environment variable of a key is SFDX_ followed by the snake
    case of the key in upper case: defaultusername gives SFDX_DEFAULTUSERNAME
    and apiVersion gives SFDX_API_VERSION. A load reads the Environment value
    of an allowed key from the variable of that name, and [getPath] shows the
    same name behind a dollar sign. *)
Theorem propertyToEnvName_naming (w : World) (a0 a : t) (key : string) :
  loadProperties w a0 = (Ok (), a) →
  key ∈ allowedKeys w →
  propertyToEnvName key = "SFDX_" +:+ Lodash.toUpperCase (Lodash.snakeCase key) ∧
  environmentLayer a !! key =
    VString <$> process_env w ("SFDX_" +:+ Lodash.toUpperCase (Lodash.snakeCase key)) ∧
  (is_Some (environmentLayer a !! key) →
     getPath a key = Ok (Some ("$SFDX_" +:+ Lodash.toUpperCase (Lodash.snakeCase key)))) ∧
  propertyToEnvName "defaultusername" = "SFDX_DEFAULTUSERNAME" ∧
  propertyToEnvName "apiVersion" = "SFDX_API_VERSION".
Proof.
  intros Hload Hin.
  pose proof (loadProperties_Loaded w a0 a Hload) as Hl.
  repeat split.
  - destruct Hl as [_ _ _ Henv _]. by rewrite Henv, decide_True.
  - intros [v Hv]. by apply (getPath_environment w a key v Hl).
Qed.
End naming.

Section naming_witness.
Local Existing Instance Examples.builtins.

Lemma propertyToEnvName_naming_witness :
  loadProperties Examples.threeLayers new = (Ok (), Examples.threeLayersLoaded) ∧
  "defaultusername" ∈ allowedKeys Examples.threeLayers ∧
  environmentLayer Examples.threeLayersLoaded !! "defaultusername" =
    VString <$> process_env Examples.threeLayers "SFDX_DEFAULTUSERNAME".
Proof.
  assert (loadProperties Examples.threeLayers new = (Ok (), Examples.threeLayersLoaded))
    as Hload by (vm_compute; reflexivity).
  assert ("defaultusername" ∈ allowedKeys Examples.threeLayers) as Hin by in_list.
  split; [exact Hload|]. split; [exact Hin|].
  exact (proj1 (proj2 (propertyToEnvName_naming _ _ _ _ Hload Hin))).
Defined.
End naming_witness.

Section stray_key_example.
Local Existing Instance Examples.builtins.

End stray_key_example.

Section stray_key.
Context `{builtins : JavaScript.Builtins}.

End stray_key.

Section stray_key_witness.
Local Existing Instance Examples.builtins.

End stray_key_witness.

(** ** Beyond the claims: when a load succeeds and what it throws *)

(** X1. A load succeeds exactly when creating the local store succeeds or
    throws InvalidProjectWorkspace, the global store is created and read,
    and the local store that the load reads, if there is one, is read. *)
Theorem loadProperties_succeeds_iff (w : World) (a0 : t) :
  (∃ a, loadProperties w a0 = (Ok (), a)) ↔
  localCreationPasses w ∧
  (∃ g gc, create_config w true = Ok g ∧ read_config w g = Ok gc) ∧
  (∀ c, localStoreToRead w a0 = Some c → ∃ lc, read_config w c = Ok lc).
Proof.
  unfold localCreationPasses, localStoreToRead, getLocalConfig. split.
  - intros [a H]. revert H. run_load. intros H.
    destruct (create_config w false) as [c|e]; simpl in H.
    + destruct (create_config w true) as [g|] eqn:Hg; [|done].
      destruct (read_config w g) as [gc|] eqn:Hgc; [|done].
      destruct (read_config w c) as [lc|] eqn:Hlread; [|done].
      split; [done|]. split; [eauto|]. intros c' [= <-]. eauto.
    + case_bool_decide as Hname; [done|].
      destruct (create_config w true) as [g|] eqn:Hg; [|done].
      destruct (read_config w g) as [gc|] eqn:Hgc; [|done].
      split; [done|]. split; [eauto|]. intros c Hc. rewrite Hc in H. simpl in H.
      destruct (read_config w c) as [lc|]; [eauto|done].
  - intros (Hpass & (g & gc & Hg & Hgc) & Hlocal). run_load.
    destruct (create_config w false) as [c|e]; simpl.
    + rewrite Hg, Hgc. destruct (Hlocal c eq_refl) as [lc ->]. simpl. eauto.
    + rewrite bool_decide_eq_false_2 by (intros Hne; by apply Hne).
      rewrite Hg, Hgc. simpl.
      destruct (localConfig a0) as [c|]; simpl; [|eauto].
      destruct (Hlocal c eq_refl) as [lc ->]. simpl. eauto.
Qed.

(** X2. When a load throws, the error is that of the first step that fails,
    in the order: creating the local store (any error but
    InvalidProjectWorkspace), creating the global store, reading the global
    store, reading the local store. A failing read of the global store hides
    what reading the local store would do. *)
Theorem loadProperties_first_error (w : World) (a0 a : t) (e : Error) :
  loadProperties w a0 = (Throw e, a) →
  (create_config w false = Throw e ∧ name e ≠ "InvalidProjectWorkspace") ∨
  (localCreationPasses w ∧ create_config w true = Throw e) ∨
  (localCreationPasses w ∧
     ∃ g, create_config w true = Ok g ∧ read_config w g = Throw e) ∨
  (localCreationPasses w ∧
     ∃ g gc c, create_config w true = Ok g ∧ read_config w g = Ok gc ∧
       localStoreToRead w a0 = Some c ∧ read_config w c = Throw e).
Proof.
  unfold localCreationPasses, localStoreToRead, getLocalConfig.
  run_load. intros H.
  destruct (create_config w false) as [c|e0]; simpl in H.
  - destruct (create_config w true) as [g|e1].
    + destruct (read_config w g) as [gc|e2] eqn:Hgread.
      * destruct (read_config w c) as [lc|e3] eqn:Hlread; [done|].
        simplify_eq/=. do 3 right. split; [done|]. by exists g, gc, c.
      * simplify_eq/=. do 2 right. left. eauto.
    + simplify_eq/=. right. left. eauto.
  - case_bool_decide as Hname.
    + simplify_eq/=. by left.
    + destruct (create_config w true) as [g|e1].
      * destruct (read_config w g) as [gc|e2] eqn:Hgread.
        -- destruct (localConfig a0) as [c|]; simpl in H; [|done].
           destruct (read_config w c) as [lc|e3] eqn:Hlread; [done|].
           simplify_eq/=. do 3 right. split; [done|]. by exists g, gc, c.
        -- simplify_eq/=. do 2 right. left. eauto.
      * simplify_eq/=. right. left. eauto.
Qed.

Lemma loadProperties_first_error_witness :
  loadProperties Scenarios.nothingReadable new =
    (Throw Examples.EACCES,
     (loadProperties Scenarios.nothingReadable new).2) ∧
  read_config Scenarios.nothingReadable (Examples.localStore ∅) = Throw Scenarios.ENOENT ∧
  ∃ g, create_config Scenarios.nothingReadable true = Ok g ∧
       read_config Scenarios.nothingReadable g = Throw Examples.EACCES.
Proof.
  assert (loadProperties Scenarios.nothingReadable new =
            (Throw Examples.EACCES, (loadProperties Scenarios.nothingReadable new).2))
    as Hload by (vm_compute; reflexivity).
  split; [exact Hload|]. split; [reflexivity|].
  destruct (loadProperties_first_error _ _ _ _ Hload)
    as [[Hc _]|[[_ Hc]|[[_ Hg]|(_ & g & gc & c & Hc & _)]]];
    [discriminate Hc | discriminate Hc | exact Hg | ].
  injection Hc as <-. eexists. split; reflexivity.
Defined.

(** X3. A load in which creating the local store throws
    InvalidProjectWorkspace does not clear a local store that the aggregator
    already holds: the load reads that store again and keeps it, and its
    values still come before Global's in the snapshot. *)
Theorem reload_outside_project_keeps_local
    (w : World) (a0 a : t) (c : SfdxConfig.t) (e : Error) :
  getLocalConfig a0 = Some c →
  create_config w false = Throw e →
  name e = "InvalidProjectWorkspace" →
  loadProperties w a0 = (Ok (), a) →
  ∃ lc, read_config w c = Ok lc ∧
    getLocalConfig a = Some (SfdxConfig.mk (SfdxConfig.isGlobal c) (SfdxConfig.path c) lc) ∧
    ∀ key v, lc !! key = Some v → environmentLayer a !! key = None →
      (getConfig a ≫= (.!! key)) = Some v ∧
      (truthy (Some v) = true → getLocation a key = Some LOCAL).
Proof.
  intros Hold Hlocal Hname Hload.
  pose proof (loadProperties_Loaded w a0 a Hload) as Hl.
  apply loadProperties_Ok in Hload
    as (g & gc & _ & _ & _ & _ & _ & _ & [(_ & Hnone & _)|(c' & lc & Hread & Hnew & Hwhich)]).
  { congruence. }
  destruct Hwhich as [Hok|[Hsame _]]; [congruence|].
  assert (c' = c) as -> by congruence.
  exists lc. split; [done|]. split; [done|].
  intros key v Hkey He.
  assert (localLayer a !! key = Some v) as Hlayer
    by (unfold localLayer; by rewrite Hnew).
  split.
  - destruct Hl as [_ _ _ _ (cfg & -> & Hlookup)]. simpl.
    rewrite Hlookup. unfold overlay. by rewrite He, Hlayer.
  - intros Htruthy. rewrite getLocation_spec, He. unfold fileLocation.
    by rewrite Hlayer, Htruthy.
Qed.

Lemma reload_outside_project_keeps_local_witness :
  loadProperties Scenarios.leftProject Scenarios.inProjectLoaded =
    (Ok (), Scenarios.inProjectLoaded) ∧
  getPropertyValue Scenarios.inProjectLoaded "defaultusername" = Ok (Some (VString "alice")) ∧
  getLocation Scenarios.inProjectLoaded "defaultusername" = Some LOCAL.
Proof.
  assert (loadProperties Scenarios.leftProject Scenarios.inProjectLoaded =
            (Ok (), Scenarios.inProjectLoaded)) as Hload by (vm_compute; reflexivity).
  split; [exact Hload|]. split; [vm_compute; reflexivity|].
  destruct (reload_outside_project_keeps_local Scenarios.leftProject
              Scenarios.inProjectLoaded Scenarios.inProjectLoaded
              (Examples.localStore {[ "defaultusername" := VString "alice" ]})
              Examples.InvalidProjectWorkspace eq_refl eq_refl eq_refl Hload)
    as (lc & Hread & _ & Hkeys).
  injection Hread as <-.
  apply (Hkeys "defaultusername" (VString "alice")); vm_compute; reflexivity.
Defined.

Lemma loadProperties_prior_state (w : World) (a0 b0 a : t) :
  loadProperties w a0 = (Ok (), a) →
  (∃ c, create_config w false = Ok c) ∨ getLocalConfig b0 = getLocalConfig a0 →
  loadProperties w b0 = (Ok (), a).
Proof.
  unfold getLocalConfig. run_load. intros H Hprior.
  destruct (create_config w false) as [c|e]; simpl in *.
  - destruct (create_config w true) as [g|]; [|done].
    destruct (read_config w g) as [gc|]; [|done].
    destruct (read_config w c) as [lc|]; [|done].
    by simplify_eq/=.
  - destruct Hprior as [[c Hc]|Hprior]; [done|].
    case_bool_decide as Hname; [done|].
    destruct (create_config w true) as [g|]; [|done].
    destruct (read_config w g) as [gc|]; [|done].
    simpl in *. rewrite Hprior.
    destruct (localConfig a0) as [c|]; simpl in *.
    + destruct (read_config w c) as [lc|]; [|done]. by simplify_eq/=.
    + by simplify_eq/=.
Qed.


(** X4. The state a successful load leaves depends on the state before only
    through the local store it held, and not at all when the local store is
    created: any other aggregator loaded in the same world ends in the same
    state. *)
Theorem reload_replaces_state (w : World) (a0 b0 a : t) :
  loadProperties w a0 = (Ok (), a) →
  (∃ c, create_config w false = Ok c) ∨ getLocalConfig b0 = getLocalConfig a0 →
  loadProperties w b0 = (Ok (), a).
Proof. apply loadProperties_prior_state. Qed.

Lemma reload_replaces_state_witness :
  loadProperties Examples.threeLayers new = (Ok (), Examples.threeLayersLoaded) ∧
  loadProperties Examples.threeLayers Examples.beforeLoaded =
    (Ok (), Examples.threeLayersLoaded).
Proof.
  assert (loadProperties Examples.threeLayers new = (Ok (), Examples.threeLayersLoaded))
    as Hload by (vm_compute; reflexivity).
  split; [exact Hload|].
  apply (reload_replaces_state _ new _ _ Hload). left. eexists. reflexivity.
Defined.

(** X5. Reloading right after [create], with nothing changed outside, leaves
    the aggregator in the same state, with the same listing. *)
Theorem reload_idempotent (w : World) (a : t) :
  create w = Ok a →
  reload w a = (Ok (), a).
Proof.
  unfold create, reload. intros Hcreate.
  destruct (loadProperties w new) as [[[]|e] a'] eqn:Hload; [|done].
  injection Hcreate as ->.
  apply (loadProperties_prior_state w new a a Hload).
  apply loadProperties_Ok in Hload
    as (_ & _ & _ & _ & _ & _ & _ & _ & [(Hnone & _ & _)|(c & lc & _ & _ & [Hok|[Hold _]])]).
  - right. by rewrite Hnone.
  - left. eauto.
  - done.
Qed.

Lemma reload_idempotent_witness :
  create Examples.noProject = Ok Examples.noProjectLoaded ∧
  reload Examples.noProject Examples.noProjectLoaded = (Ok (), Examples.noProjectLoaded).
Proof.
  assert (create Examples.noProject = Ok Examples.noProjectLoaded)
    as Hcreate by (vm_compute; reflexivity).
  split; [exact Hcreate|]. exact (reload_idempotent _ _ Hcreate).
Defined.

(** ** Beyond the claims: the Environment layer *)

(** X6. After a load every entry of the Environment layer belongs to a key
    of the schema and is the string that the key's environment variable
    holds: a variable of a key outside the schema is never read, and an
    Environment value is never a boolean. *)
Theorem environmentLayer_entries (w : World) (a0 a : t) (key : string) (v : ConfigValue) :
  loadProperties w a0 = (Ok (), a) →
  environmentLayer a !! key = Some v →
  key ∈ allowedKeys w ∧
  ∃ s, v = VString s ∧ process_env w (propertyToEnvName key) = Some s.
Proof.
  intros Hload Hv.
  destruct (loadProperties_Loaded w a0 a Hload) as [_ _ _ Henv _].
  rewrite Henv in Hv. destruct (decide (key ∈ allowedKeys w)) as [Hin|]; [|done].
  split; [done|].
  destruct (process_env w (propertyToEnvName key)) as [s|]; [|done].
  simpl in Hv. exists s. split; congruence.
Qed.

Lemma environmentLayer_entries_witness :
  loadProperties Examples.threeLayers new = (Ok (), Examples.threeLayersLoaded) ∧
  process_env Examples.threeLayers (propertyToEnvName "logLevel") = Some "DEBUG".
Proof.
  assert (loadProperties Examples.threeLayers new = (Ok (), Examples.threeLayersLoaded))
    as Hload by (vm_compute; reflexivity).
  split; [exact Hload|].
  destruct (environmentLayer_entries _ _ _ "logLevel" (VString "DEBUG") Hload)
    as (_ & s & Hs & Hvar); [vm_compute; reflexivity|].
  injection Hs as <-. exact Hvar.
Defined.

Section override.
Context `{builtins : JavaScript.Builtins}.

(** X7. Whatever string the environment variable of an allowed key holds,
    the empty string included, and whatever the files hold, the key resolves
    to that string, is located in the Environment, has the variable's name as
    its path, and [getInfo] returns the record of these three. *)
Theorem environment_variable_overrides (w : World) (a0 a : t) (key s : string) :
  loadProperties w a0 = (Ok (), a) →
  key ∈ allowedKeys w →
  process_env w (propertyToEnvName key) = Some s →
  getPropertyValue a key = Ok (Some (VString s)) ∧
  getLocation a key = Some ENVIRONMENT ∧
  getPath a key = Ok (Some ("$" +:+ propertyToEnvName key)) ∧
  getInfo a key =
    Ok {| ConfigInfo.key := key; ConfigInfo.location := Some ENVIRONMENT;
          ConfigInfo.value := Some (VString s);
          ConfigInfo.path := Some ("$" +:+ propertyToEnvName key) |}.
Proof.
  intros Hload Hin Hvar.
  pose proof (loadProperties_Loaded w a0 a Hload) as Hl.
  assert (environmentLayer a !! key = Some (VString s)) as He.
  { destruct Hl as [_ _ _ Henv _]. by rewrite Henv, decide_True, Hvar. }
  assert (getPropertyValue a key = Ok (Some (VString s))) as Hvalue.
  { rewrite (getPropertyValue_allowed w a key Hl Hin). unfold overlay. by rewrite He. }
  assert (getLocation a key = Some ENVIRONMENT) as Hloc
    by (by rewrite getLocation_spec, He).
  assert (getPath a key = Ok (Some ("$" +:+ propertyToEnvName key))) as Hpath.
  { by apply (getPath_environment w a key (VString s) Hl). }
  repeat split; try done.
  unfold getInfo. by rewrite Hvalue, Hpath, Hloc.
Qed.
End override.

Section override_witness.
Local Existing Instance Examples.builtins.

Lemma environment_variable_overrides_witness :
  loadProperties Scenarios.emptyVariable new = (Ok (), Scenarios.emptyVariableLoaded) ∧
  localLayer Scenarios.emptyVariableLoaded !! "defaultusername" = Some (VString "alice") ∧
  getPropertyValue Scenarios.emptyVariableLoaded "defaultusername" = Ok (Some (VString "")) ∧
  getLocation Scenarios.emptyVariableLoaded "defaultusername" = Some ENVIRONMENT.
Proof.
  assert (loadProperties Scenarios.emptyVariable new = (Ok (), Scenarios.emptyVariableLoaded))
    as Hload by (vm_compute; reflexivity).
  split; [exact Hload|]. split; [vm_compute; reflexivity|].
  destruct (environment_variable_overrides _ _ _ "defaultusername" "" Hload)
    as (Hvalue & Hloc & _); [in_list | vm_compute; reflexivity |].
  split; [exact Hvalue | exact Hloc].
Defined.
End override_witness.

(** ** Beyond the claims: how value, location and path fit together *)

Lemma storePath_local (this : t) (key : string) :
  storePath (getLocalConfig this) key =
    match localLayer this !! key with
    | Some _ => origin this LOCAL key
    | None => None
    end.
Proof.
  unfold storePath, localLayer, origin.
  destruct (getLocalConfig this) as [c|]; simpl; [|by rewrite lookup_empty].
  by destruct (SfdxConfig.contents c !! key).
Qed.

Lemma storePath_global (this : t) (key : string) :
  storePath (getGlobalConfig this) key =
    match globalLayer this !! key with
    | Some _ => origin this GLOBAL key
    | None => None
    end.
Proof.
  unfold storePath, globalLayer, origin.
  destruct (getGlobalConfig this) as [c|]; simpl; [|by rewrite lookup_empty].
  by destruct (SfdxConfig.contents c !! key).
Qed.

(** A store that holds a key has a path. *)
Lemma origin_is_Some (this : t) (key : string) :
  (is_Some (localLayer this !! key) → is_Some (origin this LOCAL key)) ∧
  (is_Some (globalLayer this !! key) → is_Some (origin this GLOBAL key)).
Proof.
  unfold localLayer, globalLayer, origin. split.
  - destruct (getLocalConfig this); simpl; [eauto|]. rewrite lookup_empty. by intros [? ?].
  - destruct (getGlobalConfig this); simpl; [eauto|]. rewrite lookup_empty. by intros [? ?].
Qed.

Section provenance.
Context `{builtins : JavaScript.Builtins}.

(** X8. After a load, when the snapshot's value for a key is truthy,
    [getLocation] names a layer that holds exactly that value, and [getPath]
    shows the origin of that layer when the layer is the Environment or the
    key is plain; and when [getLocation] names no layer, the snapshot's value
    for the key is falsy or missing. *)
Theorem truthy_value_provenance (w : World) (a0 a : t) (key : string) :
  loadProperties w a0 = (Ok (), a) →
  (∀ v, (getConfig a ≫= (.!! key)) = Some v → truthy (Some v) = true →
     ∃ src, getLocation a key = Some src ∧ layer a src !! key = Some v ∧
            (src = ENVIRONMENT ∨ plainKey key = true →
               getPath a key = Ok (origin a src key))) ∧
  (getLocation a key = None → truthy (getConfig a ≫= (.!! key)) = false).
Proof.
  intros Hload.
  pose proof (loadProperties_Loaded w a0 a Hload) as Hl.
  assert (plainKey key = true →
          getPath a key =
            Ok (match environmentLayer a !! key with
                | Some _ => Some ("$" +:+ propertyToEnvName key)
                | None =>
                    match match localLayer a !! key with
                          | Some _ => origin a LOCAL key
                          | None => None
                          end with
                    | Some p => Some p
                    | None =>
                        match globalLayer a !! key with
                        | Some _ => origin a GLOBAL key
                        | None => None
                        end
                    end
                end)) as Hpath.
  { intros Hplain. rewrite (getPath_plain w a key Hl Hplain). unfold pathByPresence.
    by rewrite storePath_local, storePath_global. }
  rewrite getLocation_spec.
  destruct (Hl) as [_ _ _ _ (cfg & -> & Hlookup)]. simpl. rewrite Hlookup.
  unfold overlay, fileLocation.
  destruct (origin_is_Some a key) as [Hlocal Hglobal].
  destruct (environmentLayer a !! key) as [ve|] eqn:He.
  { split; [|done]. intros v [= <-] _. exists ENVIRONMENT.
    split; [done|]. split; [done|]. intros _.
    by apply (getPath_environment w a key ve Hl). }
  destruct (localLayer a !! key) as [vl|] eqn:Hvl.
  - destruct Hlocal as [p Hp]; [eauto|]. split.
    + intros v [= <-] Htruthy. change (truthy (Some vl) = true) in Htruthy.
      rewrite Htruthy. exists LOCAL. split; [done|]. split; [done|].
      intros [?|Hplain]; [done|]. rewrite (Hpath Hplain). by rewrite Hp.
    + destruct (truthy (Some vl)); [done|]. by destruct (truthy _).
  - simpl. destruct (globalLayer a !! key) as [vg|] eqn:Hvg; [|done].
    split.
    + intros v [= <-] Htruthy. change (truthy (Some vg) = true) in Htruthy.
      rewrite Htruthy. exists GLOBAL. split; [done|]. split; [done|].
      intros [?|Hplain]; [done|]. by rewrite (Hpath Hplain).
    + by destruct (truthy (Some vg)).
Qed.
End provenance.

Section provenance_witness.
Local Existing Instance Examples.builtins.

Lemma truthy_value_provenance_witness :
  loadProperties Scenarios.inProject new = (Ok (), Scenarios.inProjectLoaded) ∧
  plainKey "defaultusername" = true ∧
  getLocation Scenarios.inProjectLoaded "defaultusername" = Some LOCAL ∧
  getPath Scenarios.inProjectLoaded "defaultusername" = Ok (Some Examples.localPath).
Proof.
  assert (loadProperties Scenarios.inProject new = (Ok (), Scenarios.inProjectLoaded))
    as Hload by (vm_compute; reflexivity).
  split; [exact Hload|]. split; [reflexivity|].
  destruct (proj1 (truthy_value_provenance _ _ _ "defaultusername" Hload)
              (VString "alice") eq_refl eq_refl) as (src & Hsrc & _ & Hpath).
  assert (src = LOCAL) as ->.
  { assert (getLocation Scenarios.inProjectLoaded "defaultusername" = Some LOCAL)
      as Hloc by (vm_compute; reflexivity).
    rewrite Hloc in Hsrc. by injection Hsrc. }
  split; [exact Hsrc|]. apply Hpath. right. reflexivity.
Defined.
End provenance_witness.

Section agreement.
Context `{builtins : JavaScript.Builtins}.

(** X9. After a load the path agrees with the location when the location is
    the Environment, and for a plain key when it is Local. When the location
    of a plain key is Global the path is the global store's only if Local's
    contents do not hold the key; if they do (with a falsy value) the path is
    the local store's. A plain key without a path has no location. *)
Theorem location_path_agreement (w : World) (a0 a : t) (key : string) :
  loadProperties w a0 = (Ok (), a) →
  (getLocation a key = Some ENVIRONMENT →
     getPath a key = Ok (origin a ENVIRONMENT key)) ∧
  (plainKey key = true →
     (getLocation a key = Some LOCAL → getPath a key = Ok (origin a LOCAL key)) ∧
     (getLocation a key = Some GLOBAL →
        getPath a key =
          Ok (origin a (if localLayer a !! key is Some _ then LOCAL else GLOBAL) key)) ∧
     (getPath a key = Ok None → getLocation a key = None)).
Proof.
  intros Hload.
  pose proof (loadProperties_Loaded w a0 a Hload) as Hl.
  split.
  - rewrite getLocation_spec.
    destruct (environmentLayer a !! key) as [ve|] eqn:He.
    + intros _. by apply (getPath_environment w a key ve Hl).
    + unfold fileLocation. by repeat case_match.
  - intros Hplain.
    rewrite (getPath_plain w a key Hl Hplain), getLocation_spec.
    unfold fileLocation, pathByPresence.
    rewrite storePath_local, storePath_global.
    destruct (origin_is_Some a key) as [Hlocal Hglobal].
    destruct (environmentLayer a !! key) as [ve|]; [done|].
    destruct (localLayer a !! key) as [vl|].
    + destruct Hlocal as [p ->]; [eauto|].
      destruct (truthy (Some vl)); [done|]. by destruct (truthy _).
    + destruct (globalLayer a !! key) as [vg|]; [|done].
      destruct Hglobal as [p ->]; [eauto|].
      by destruct (truthy (Some vg)).
Qed.
End agreement.

Section agreement_witness.
Local Existing Instance Examples.builtins.

Lemma location_path_agreement_witness :
  loadProperties Examples.threeLayers new = (Ok (), Examples.threeLayersLoaded) ∧
  plainKey "restDeploy" = true ∧
  getLocation Examples.threeLayersLoaded "restDeploy" = Some GLOBAL ∧
  getPath Examples.threeLayersLoaded "restDeploy" = Ok (Some Examples.localPath).
Proof.
  assert (loadProperties Examples.threeLayers new = (Ok (), Examples.threeLayersLoaded))
    as Hload by (vm_compute; reflexivity).
  assert (getLocation Examples.threeLayersLoaded "restDeploy" = Some GLOBAL)
    as Hloc by (vm_compute; reflexivity).
  split; [exact Hload|]. split; [reflexivity|]. split; [exact Hloc|].
  destruct (proj2 (location_path_agreement _ _ _ "restDeploy" Hload) eq_refl)
    as (_ & Hglobal & _).
  exact (Hglobal Hloc).
Defined.
End agreement_witness.

Section record.
Context `{builtins : JavaScript.Builtins}.

(** X10. After a load [getInfo] returns a record for every key of the
    schema: its fields are what [getPropertyValue], [getLocation] and
    [getPath] return for the key, at most one of its three predicates holds,
    and each predicate holds exactly when [getLocation] finds the key in that
    layer. *)
Theorem getInfo_record (w : World) (a0 a : t) (key : string) :
  loadProperties w a0 = (Ok (), a) →
  key ∈ allowedKeys w →
  ∃ i, getInfo a key = Ok i ∧
    ConfigInfo.key i = key ∧
    getPropertyValue a key = Ok (ConfigInfo.value i) ∧
    getLocation a key = ConfigInfo.location i ∧
    getPath a key = Ok (ConfigInfo.path i) ∧
    (ConfigInfo.isEnvVar i = true ↔ is_Some (environmentLayer a !! key)) ∧
    (ConfigInfo.isLocal i = true ↔
       environmentLayer a !! key = None ∧ truthy (localLayer a !! key) = true) ∧
    (ConfigInfo.isGlobal i = true ↔
       environmentLayer a !! key = None ∧ truthy (localLayer a !! key) = false ∧
       truthy (globalLayer a !! key) = true) ∧
    (ConfigInfo.isLocal i && ConfigInfo.isGlobal i = false) ∧
    (ConfigInfo.isLocal i && ConfigInfo.isEnvVar i = false) ∧
    (ConfigInfo.isGlobal i && ConfigInfo.isEnvVar i = false).
Proof.
  intros Hload Hin.
  pose proof (loadProperties_Loaded w a0 a Hload) as Hl.
  exists (infoOf a key). split; [by apply (getInfo_allowed w)|].
  split; [done|]. split; [by apply (getPropertyValue_allowed w)|].
  split; [done|]. split; [by apply (getPath_resolved w)|].
  unfold ConfigInfo.isEnvVar, ConfigInfo.isLocal, ConfigInfo.isGlobal. simpl.
  rewrite !bool_decide_eq_true, getLocation_spec. unfold fileLocation.
  destruct (environmentLayer a !! key) as [ve|];
    [|destruct (truthy (localLayer a !! key));
      [|destruct (truthy (globalLayer a !! key))]];
    repeat split; try reflexivity; try discriminate; eauto;
    try (by intros [? ?]); try (by intros (? & ? & ?)).
Qed.
End record.

Section record_witness.
Local Existing Instance Examples.builtins.

Lemma getInfo_record_witness :
  loadProperties Examples.threeLayers new = (Ok (), Examples.threeLayersLoaded) ∧
  ∃ i, getInfo Examples.threeLayersLoaded "apiVersion" = Ok i ∧
       ConfigInfo.key i = "apiVersion".
Proof.
  assert (loadProperties Examples.threeLayers new = (Ok (), Examples.threeLayersLoaded))
    as Hload by (vm_compute; reflexivity).
  split; [exact Hload|].
  destruct (getInfo_record _ _ _ "apiVersion" Hload) as (i & Hi & Hkey & _); [in_list|].
  exists i. split; [exact Hi | exact Hkey].
Defined.
End record_witness.

(** ** Beyond the claims: the characters of an environment-variable name *)

Lemma consumes_anything (r : Regex.regex) : consumes (λ _, True) r.
Proof. induction r; simpl; auto. Qed.

(** A scan only returns units of the string it scans. *)
Lemma matchAll_units (Q : ascii → Prop) (r : Regex.regex) (s : list ascii) :
  Forall Q s → Forall (Forall Q) (Regex.matchAll r s).
Proof.
  unfold Regex.matchAll. generalize (S (length s)) as fuel.
  intros fuel. revert s. induction fuel as [|fuel IH]; intros s Hs; [constructor|].
  cbn [Regex.matchAll_from].
  assert (Forall (Forall Q)
            match s with [] => [] | _ :: s' => Regex.matchAll_from fuel r s' end)
    as Hskip.
  { destruct s; [constructor|]. apply IH. by apply Forall_cons in Hs as [_ ?]. }
  destruct (Regex.exec r s) as [[m rest]|] eqn:Hexec; [|done].
  apply (exec_consumes _ r s m rest (consumes_anything r)) in Hexec as [-> _].
  apply Forall_app in Hs as [Hm Hrest].
  destruct m; constructor; auto.
Qed.

(** Character facts, checked on each of the 256 code units. *)
Lemma ascii_not_break_alnum (c : ascii) :
  isAscii c = true → Lodash.isBreak c = false →
  Lodash.isAlpha c || Lodash.isDigit c = true.
Proof. destruct c as [[] [] [] [] [] [] [] []]; vm_compute; intros; congruence. Qed.

Lemma lowerChar_alnum (c : ascii) :
  Lodash.isAlpha c || Lodash.isDigit c = true →
  Lodash.isLower (Lodash.lowerChar c) || Lodash.isDigit (Lodash.lowerChar c) = true.
Proof. destruct c as [[] [] [] [] [] [] [] []]; vm_compute; intros; congruence. Qed.

Lemma upperChar_envName (c : ascii) :
  Lodash.isLower c || Lodash.isDigit c || bool_decide (c = "_"%char) = true →
  isEnvNameChar (Lodash.upperChar c) = true.
Proof. destruct c as [[] [] [] [] [] [] [] []]; vm_compute; intros; congruence. Qed.

Lemma word_unit_alnum (c : ascii) :
  Lodash.isAlpha c || Lodash.isDigit c || Lodash.isApos c = true →
  Lodash.isApos c = false →
  Lodash.isAlpha c || Lodash.isDigit c = true.
Proof. intros H Hapos. by rewrite Hapos, orb_false_r in H. Qed.

Lemma reUnicodeWord_consumes :
  consumes (λ c, Lodash.isAlpha c || Lodash.isDigit c || Lodash.isApos c = true)
    Lodash.reUnicodeWord.
Proof.
  assert (∀ c d : ascii,
            Lodash.isAlpha d || Lodash.isDigit d = true →
            bool_decide (c = d) = true →
            Lodash.isAlpha c || Lodash.isDigit c || Lodash.isApos c = true) as Hlit.
  { intros c d Hd ->%bool_decide_eq_true. by rewrite Hd. }
  assert (∀ c, Lodash.isLower c = true →
            Lodash.isAlpha c || Lodash.isDigit c || Lodash.isApos c = true) as Hlower.
  { intros c Hc. unfold Lodash.isAlpha. by rewrite Hc. }
  assert (∀ c, Lodash.isUpper c = true →
            Lodash.isAlpha c || Lodash.isDigit c || Lodash.isApos c = true) as Hupper.
  { intros c Hc. unfold Lodash.isAlpha. by rewrite Hc, orb_true_r. }
  assert (∀ c, Lodash.isDigit c = true →
            Lodash.isAlpha c || Lodash.isDigit c || Lodash.isApos c = true) as Hdigit.
  { intros c Hc. by rewrite Hc, orb_true_r. }
  assert (∀ c, Lodash.isApos c = true →
            Lodash.isAlpha c || Lodash.isDigit c || Lodash.isApos c = true) as Hapos.
  { intros c Hc. by rewrite Hc, orb_true_r. }
  cbv [Lodash.reUnicodeWord Lodash.rsOrdUpper Lodash.rsOrdLower Lodash.rsDigits
       Lodash.rsOptContrLower Lodash.rsOptContrUpper Lodash.rsMiscLower
       Lodash.rsMiscUpper Lodash.rsLower Lodash.rsUpper Lodash.rsDigit
       Regex.Some1 Regex.Opt Regex.Str Regex.Lit list_ascii_of_string consumes].
  repeat split; auto; intros c; by apply Hlit.
Qed.

Lemma reAsciiWord_consumes :
  consumes (λ c, Lodash.isBreak c = false) Lodash.reAsciiWord.
Proof. split; intros c Hc; by apply negb_true_iff. Qed.

(** The words of an ASCII string without apostrophes are made of letters
    and digits. *)
Lemma words_alnum (s : list ascii) :
  Forall (λ c, isAscii c = true ∧ Lodash.isApos c = false) s →
  Forall (Forall (λ c, Lodash.isAlpha c || Lodash.isDigit c = true)) (Lodash.words s).
Proof.
  intros Hs. unfold Lodash.words.
  destruct (Lodash.hasUnicodeWord s).
  - pose proof (matchAll_consumes _ Lodash.reUnicodeWord s reUnicodeWord_consumes) as Hw.
    pose proof (matchAll_units _ Lodash.reUnicodeWord s Hs) as Hu.
    unfold Lodash.unicodeWords. revert Hw Hu.
    generalize (Regex.matchAll Lodash.reUnicodeWord s). intros ws.
    rewrite !Forall_forall. intros Hw Hu m Hm.
    specialize (Hw m Hm). specialize (Hu m Hm). rewrite Forall_forall in *.
    intros c Hc. apply word_unit_alnum; [by apply Hw|by apply Hu].
  - pose proof (matchAll_consumes _ Lodash.reAsciiWord s reAsciiWord_consumes) as Hw.
    pose proof (matchAll_units _ Lodash.reAsciiWord s Hs) as Hu.
    unfold Lodash.asciiWords. revert Hw Hu.
    generalize (Regex.matchAll Lodash.reAsciiWord s). intros ws.
    rewrite !Forall_forall. intros Hw Hu m Hm.
    specialize (Hw m Hm). specialize (Hu m Hm). rewrite Forall_forall in *.
    intros c Hc. apply ascii_not_break_alnum; [by apply Hu|by apply Hw].
Qed.

Lemma imap_pair_words {A : Type} (g : nat → nat) (ws : list A) :
  Forall (λ iw, iw.2 ∈ ws) (imap (λ i w, (g i, w)) ws).
Proof.
  revert g. induction ws as [|w ws IH]; intros g; [constructor|].
  rewrite imap_cons. constructor; [by left|].
  eapply Forall_impl; [apply (IH (g ∘ S))|]. intros iw Hiw. by right.
Qed.

Lemma compound_units (l : list (nat * list ascii)) (acc : list ascii) :
  Forall (λ c, Lodash.isLower c || Lodash.isDigit c || bool_decide (c = "_"%char) = true) acc →
  Forall (λ iw, Forall (λ c, Lodash.isAlpha c || Lodash.isDigit c = true) iw.2) l →
  Forall (λ c, Lodash.isLower c || Lodash.isDigit c || bool_decide (c = "_"%char) = true)
    (fold_left
       (λ result iw,
          result ++ (match iw.1 with O => [] | S _ => ["_"%char] end)
            ++ Lodash.toLowerCase iw.2) l acc).
Proof.
  revert acc. induction l as [|[i w] l IH]; intros acc Hacc Hl; [done|].
  apply Forall_cons in Hl as [Hw Hl]. simpl in Hw.
  simpl. apply IH; [|done].
  rewrite !Forall_app. split; [done|]. split.
  - destruct i; constructor; [done|constructor].
  - unfold Lodash.toLowerCase. apply Forall_fmap, Forall_forall. intros c Hc. simpl.
    rewrite (lowerChar_alnum c); [done|].
    rewrite Forall_forall in Hw. by apply Hw.
Qed.

(** The snake case of such a string is made of small letters, digits and
    underscores. *)
Lemma snakeCase_units (key : string) :
  Forall (λ c, isAscii c = true) (list_ascii_of_string key) →
  Forall (λ c, Lodash.isLower c || Lodash.isDigit c || bool_decide (c = "_"%char) = true)
    (list_ascii_of_string (Lodash.snakeCase key)).
Proof.
  intros Hkey. unfold Lodash.snakeCase, Lodash.createCompounder, Lodash.deburr.
  rewrite list_ascii_of_string_of_list_ascii.
  set (s := filter _ _).
  assert (Forall (λ c, isAscii c = true ∧ Lodash.isApos c = false) s) as Hs.
  { apply Forall_forall. intros c [Hapos Hc]%list_elem_of_filter. split.
    - by apply (proj1 (Forall_forall _ _) Hkey).
    - by destruct (Lodash.isApos c). }
  pose proof (words_alnum s Hs) as Hws.
  apply compound_units; [constructor|].
  eapply Forall_impl; [apply (imap_pair_words id (Lodash.words s))|].
  intros iw Hiw. by apply (proj1 (Forall_forall _ _) Hws).
Qed.

(** X11. For a key of ASCII code units the environment-variable name is
    SFDX_ followed only by capital letters, digits and underscores. *)
Theorem propertyToEnvName_characters (key : string) :
  Forall (λ c, isAscii c = true) (list_ascii_of_string key) →
  ∃ body, propertyToEnvName key = "SFDX_" +:+ body ∧
    Forall (λ c, isEnvNameChar c = true) (list_ascii_of_string body).
Proof.
  intros Hkey. exists (Lodash.toUpperCase (Lodash.snakeCase key)). split; [done|].
  unfold Lodash.toUpperCase. rewrite list_ascii_of_string_of_list_ascii.
  apply Forall_fmap. eapply Forall_impl; [by apply snakeCase_units|].
  intros c Hc. by apply upperChar_envName.
Qed.

Lemma propertyToEnvName_characters_witness :
  Forall (λ c, isAscii c = true) (list_ascii_of_string "isvDebuggerSid") ∧
  ∃ body, propertyToEnvName "isvDebuggerSid" = "SFDX_" +:+ body ∧
    Forall (λ c, isEnvNameChar c = true) (list_ascii_of_string body).
Proof.
  assert (Forall (λ c, isAscii c = true) (list_ascii_of_string "isvDebuggerSid")) as Hkey
    by (simpl; repeat constructor).
  split; [exact Hkey|]. exact (propertyToEnvName_characters _ Hkey).
Defined.

(** ** Beyond the claims: when the listing is returned *)

Section listing_returned.
Context `{builtins : JavaScript.Builtins}.

(** X12. After a load [getConfigInfo] returns a listing exactly when every
    key that the contents of the local or the global store hold is in the
    schema; the Environment layer never makes it throw. *)
Theorem getConfigInfo_succeeds_iff (w : World) (a0 a : t) :
  loadProperties w a0 = (Ok (), a) →
  (∃ info, getConfigInfo a = Ok info) ↔
  (∀ key, is_Some (localLayer a !! key) ∨ is_Some (globalLayer a !! key) →
     key ∈ allowedKeys w).
Proof.
  intros Hload.
  pose proof (loadProperties_Loaded w a0 a Hload) as Hl.
  destruct (Hl) as [_ _ _ Henv (cfg & Hcfg & Hlookup)].
  unfold getConfigInfo. rewrite Hcfg. change (default ∅ (Some cfg)) with cfg.
  split.
  - intros [info Hinfo] key Hfile.
    destruct (decide (key ∈ allowedKeys w)) as [|Hnin]; [done|]. exfalso.
    assert (is_Some (cfg !! key)) as Hkey.
    { rewrite Hlookup. unfold overlay.
      destruct (environmentLayer a !! key); [eauto|].
      destruct (localLayer a !! key); [eauto|]. destruct Hfile as [[? ?]|?]; done. }
    destruct (mapOutcome_Throw (λ key, getInfo a key) (infoOf a)
                (λ key, SfdxError ("Unknown config key: " +:+ key) "UnknownConfigKey")
                (λ key, key ∉ allowedKeys w) (LodashObject.keys cfg))
      as (bad & _ & _ & Hmap).
    + intros k _. destruct (decide (k ∈ allowedKeys w)).
      * left. by apply (getInfo_allowed w).
      * right. split; [done|]. by apply (getInfo_unknown w).
    + exists key. split; [by apply elem_of_keys|]. by apply (getInfo_unknown w).
    + by rewrite Hmap in Hinfo.
  - intros Hfiles. eexists.
    rewrite (mapOutcome_Ok (λ key, getInfo a key) (infoOf a)); [done|].
    intros key Hkey%elem_of_keys. apply (getInfo_allowed w); [done|].
    rewrite Hlookup in Hkey. unfold overlay in Hkey.
    destruct (environmentLayer a !! key) eqn:He.
    { rewrite Henv in He. by destruct (decide (key ∈ allowedKeys w)). }
    apply Hfiles. destruct (localLayer a !! key); [left; eauto|by right].
Qed.
End listing_returned.

Section listing_returned_witness.
Local Existing Instance Examples.builtins.

Lemma getConfigInfo_succeeds_iff_witness :
  loadProperties Examples.strayKey new = (Ok (), Examples.strayKeyLoaded) ∧
  ¬ (∀ key, is_Some (localLayer Examples.strayKeyLoaded !! key)
            ∨ is_Some (globalLayer Examples.strayKeyLoaded !! key) →
       key ∈ allowedKeys Examples.strayKey).
Proof.
  assert (loadProperties Examples.strayKey new = (Ok (), Examples.strayKeyLoaded))
    as Hload by (vm_compute; reflexivity).
  split; [exact Hload|]. intros Hfiles.
  apply (getConfigInfo_succeeds_iff _ _ _ Hload) in Hfiles as [info Hinfo].
  vm_compute in Hinfo. discriminate Hinfo.
Defined.
End listing_returned_witness.

(** ** Beyond the claims: the path of a plain key *)

Section plain_path.
Context `{builtins : JavaScript.Builtins}.

(** X13. After a load, for a plain key (one without dot, bracket or quote
    that names no member of [Object.prototype]), [getPath] follows
    Environment, Local, Global by presence of the key: the
    environment-variable name behind a dollar sign when the Environment holds
    the key, else the local store's path when its contents hold the key
    (whatever the value), else the global store's path when its contents
    hold it, else no path. *)
Theorem getPath_of_plain_key (w : World) (a0 a : t) (key : string) :
  loadProperties w a0 = (Ok (), a) →
  plainKey key = true →
  getPath a key = Ok (pathByPresence a key) ∧
  (is_Some (environmentLayer a !! key) →
     getPath a key = Ok (Some ("$" +:+ propertyToEnvName key))) ∧
  (∀ c, environmentLayer a !! key = None →
     getLocalConfig a = Some c → is_Some (SfdxConfig.contents c !! key) →
     getPath a key = Ok (Some (SfdxConfig.getPath c))) ∧
  (∀ g, environmentLayer a !! key = None → localLayer a !! key = None →
     getGlobalConfig a = Some g → is_Some (SfdxConfig.contents g !! key) →
     getPath a key = Ok (Some (SfdxConfig.getPath g))) ∧
  (environmentLayer a !! key = None → localLayer a !! key = None →
     globalLayer a !! key = None → getPath a key = Ok None).
Proof.
  intros Hload Hplain.
  pose proof (loadProperties_Loaded w a0 a Hload) as Hl.
  rewrite !(getPath_plain w a _ Hl Hplain).
  unfold pathByPresence, storePath, localLayer, globalLayer.
  repeat split.
  - by intros [v ->].
  - intros c -> -> [v Hv]. simpl. by rewrite Hv.
  - intros g -> Hlo -> [v Hv].
    destruct (getLocalConfig a) as [c|]; simpl in *; by rewrite ?Hlo, Hv.
  - intros -> Hlo Hg.
    destruct (getLocalConfig a) as [c|], (getGlobalConfig a) as [g|];
      simpl in *; by rewrite ?Hlo, ?Hg.
Qed.
End plain_path.

Section plain_path_witness.
Local Existing Instance Examples.builtins.

Lemma getPath_of_plain_key_witness :
  loadProperties Examples.threeLayers new = (Ok (), Examples.threeLayersLoaded) ∧
  plainKey "restDeploy" = true ∧
  localLayer Examples.threeLayersLoaded !! "restDeploy" = Some (VBool false) ∧
  getPath Examples.threeLayersLoaded "restDeploy" = Ok (Some Examples.localPath) ∧
  plainKey "apiVersion" = true ∧
  getPath Examples.threeLayersLoaded "apiVersion" = Ok (Some Examples.globalPath).
Proof.
  assert (loadProperties Examples.threeLayers new = (Ok (), Examples.threeLayersLoaded))
    as Hload by (vm_compute; reflexivity).
  split; [exact Hload|]. split; [reflexivity|]. split; [vm_compute; reflexivity|].
  destruct (getPath_of_plain_key _ _ _ "restDeploy" Hload eq_refl)
    as (_ & _ & Hlocal & _).
  destruct (getPath_of_plain_key _ _ _ "apiVersion" Hload eq_refl)
    as (_ & _ & _ & Hglobal & _).
  split; [|split; [reflexivity|]].
  - apply (Hlocal _ eq_refl eq_refl). vm_compute. eauto.
  - apply (Hglobal _ eq_refl eq_refl eq_refl). vm_compute. eauto.
Defined.
End plain_path_witness.
